(** * Iterate_IP: the CIDR prefix trie of [index.js]

    A shallow embedding of [ipToBinary], [parseCIDR], [TrieNode] and
    [Trie.insert] / [Trie.searchAll], together with the JavaScript built-ins
    they call ([Number] on strings, [isNaN], [<], [>],
    [Number.prototype.toString(2)], [String.prototype.split], [padStart],
    [Array.prototype.join]).

    Strings are sequences of code units; the model covers the code units
    below 256, one [ascii] each. *)

From stdpp Require Import gmap strings list fin_maps.
From Stdlib Require Import ZArith Ascii String Lia.

#[local] Set Warnings "-register-all".
#[local] Open Scope Z_scope.
#[local] Arguments String.append !s1 s2 : simpl nomatch.

(** ** JavaScript numbers *)

Module JS.

(** A Number value.  [Finite m e] stands for the double [m * 2^e]; the two
    zeros are not told apart, since no operation used by the program
    distinguishes them ([<], [>], [isNaN] and [toString] all agree on
    [+0] and [-0]). *)
Inductive number : Type :=
  | NaN
  | Infinity (negative : bool)
  | Finite (m e : Z).

Definition ofZ (z : Z) : number := Finite z 0.
Definition ofNat (n : nat) : number := ofZ (Z.of_nat n).

Definition isNaN (x : number) : bool :=
  match x with NaN => true | _ => false end.

(** [x < y] on Numbers: false as soon as one side is NaN. *)
Definition lt (x y : number) : bool :=
  match x, y with
  | NaN, _ | _, NaN => false
  | Infinity true, Infinity true => false
  | Infinity true, _ => true
  | Infinity false, _ => false
  | Finite _ _, Infinity negative => negb negative
  | Finite m1 e1, Finite m2 e2 =>
      let e := Z.min e1 e2 in
      m1 * 2 ^ (e1 - e) <? m2 * 2 ^ (e2 - e)
  end.

(** [x > y] is [y < x]. *)
Definition gt (x y : number) : bool := lt y x.

(** The least integer not below [m * 2^e]. *)
Definition ceiling (m e : Z) : Z :=
  if 0 <=? e then m * 2 ^ e else - ((- m) / 2 ^ (- e)).

(** The double nearest to [n / d] (for [0 <= n], [0 < d]), ties to even,
    with the sign [negative]: the rounding that turns the mathematical value
    of a numeric literal into a Number.  [ex] is the binary exponent of
    [n / d], [u] the exponent of the last place of the result (no smaller
    than that of the subnormals), [q'] the rounded significand; a result of
    [2^1024] or more is an infinity. *)
Definition roundToDouble (negative : bool) (n d : Z) : number :=
  if n =? 0 then Finite 0 0 else
  let k := Z.log2 n - Z.log2 d in
  let ex := if n * 2 ^ Z.max 0 (- k) <? d * 2 ^ Z.max 0 k then k - 1 else k in
  let u := Z.max (ex - 52) (-1074) in
  let num := n * 2 ^ Z.max 0 (- u) in
  let den := d * 2 ^ Z.max 0 u in
  let q := num / den in
  let r := num mod den in
  let q' := if 2 * r <? den then q
            else if den <? 2 * r then q + 1
            else if Z.even q then q else q + 1 in
  if 1024 <=? Z.log2 q' + u then Infinity negative
  else Finite (if negative then - q' else q') u.

(** *** Strings *)

Definition isStrWhiteSpaceChar (c : ascii) : bool :=
  match nat_of_ascii c with
  | 9 | 10 | 11 | 12 | 13 | 32 | 160 => true
  | _ => false
  end%nat.

Fixpoint trimStart (s : string) : string :=
  match s with
  | String c s' => if isStrWhiteSpaceChar c then trimStart s' else s
  | EmptyString => EmptyString
  end.

Fixpoint trimEnd (s : string) : string :=
  match s with
  | String c s' =>
      match trimEnd s' with
      | EmptyString => if isStrWhiteSpaceChar c then EmptyString else String c EmptyString
      | t => String c t
      end
  | EmptyString => EmptyString
  end.

Definition trim (s : string) : string := trimEnd (trimStart s).

Definition isEmpty (s : string) : bool :=
  match s with EmptyString => true | _ => false end.

(** The value of a digit in a radix up to 16, if [c] is one. *)
Definition digitValue (c : ascii) : option Z :=
  let n := Z.of_nat (nat_of_ascii c) in
  if (48 <=? n) && (n <=? 57) then Some (n - 48)
  else if (97 <=? n) && (n <=? 102) then Some (n - 87)
  else if (65 <=? n) && (n <=? 70) then Some (n - 55)
  else None.

Definition isDigitIn (radix : Z) (c : ascii) : bool :=
  match digitValue c with Some v => v <? radix | None => false end.

Definition isDecimalDigit : ascii -> bool := isDigitIn 10.

Fixpoint allDigitsIn (radix : Z) (s : string) : bool :=
  match s with
  | String c s' => isDigitIn radix c && allDigitsIn radix s'
  | EmptyString => true
  end.

(** The mathematical value of a digit sequence, most significant first. *)
Fixpoint digitsValueFrom (radix acc : Z) (s : string) : Z :=
  match s with
  | String c s' =>
      digitsValueFrom radix (acc * radix + default 0 (digitValue c)) s'
  | EmptyString => acc
  end.

Definition digitsValue (radix : Z) (s : string) : Z := digitsValueFrom radix 0 s.

(** The longest run of decimal digits at the front, and the rest. *)
Fixpoint spanDigits (s : string) : string * string :=
  match s with
  | String c s' =>
      if isDecimalDigit c
      then let '(ds, rest) := spanDigits s' in (String c ds, rest)
      else (EmptyString, s)
  | EmptyString => (EmptyString, EmptyString)
  end.

Definition splitSign (s : string) : bool * string :=
  match s with
  | String "+" r => (false, r)
  | String "-" r => (true, r)
  | _ => (false, s)
  end.

(** [ExponentPart], optional, up to the end of the literal. *)
Definition parseExponent (s : string) : option Z :=
  match s with
  | EmptyString => Some 0
  | String c r =>
      if (c =? "e")%char || (c =? "E")%char then
        let '(negative, ds) := splitSign r in
        if negb (isEmpty ds) && allDigitsIn 10 ds
        then Some (if negative then - digitsValue 10 ds else digitsValue 10 ds)
        else None
      else None
  end.

(** [StrUnsignedDecimalLiteral] other than [Infinity]: the digits as an
    integer and the power of ten that scales it. *)
Definition parseUnsignedDecimal (s : string) : option (Z * Z) :=
  let '(ip, r1) := spanDigits s in
  let '(fp, r2) := match r1 with
                   | String "." r => spanDigits r
                   | _ => (EmptyString, r1)
                   end in
  if isEmpty ip && isEmpty fp then None
  else match parseExponent r2 with
       | Some ex => Some (digitsValue 10 (ip +:+ fp), ex - Z.of_nat (String.length fp))
       | None => None
       end.

Definition parseStrDecimalLiteral (s : string) : number :=
  let '(negative, u) := splitSign s in
  if String.eqb u "Infinity" then Infinity negative
  else match parseUnsignedDecimal u with
       | Some (m, ex) =>
           if 0 <=? ex then roundToDouble negative (m * 10 ^ ex) 1
           else roundToDouble negative m (10 ^ (- ex))
       | None => NaN
       end.

(** [NonDecimalIntegerLiteral]: [0x], [0o] or [0b] and at least one digit. *)
Definition parseNonDecimalIntegerLiteral (s : string) : option Z :=
  match s with
  | String "0" (String p ds) =>
      let radix := if (p =? "x")%char || (p =? "X")%char then 16
                   else if (p =? "o")%char || (p =? "O")%char then 8
                   else if (p =? "b")%char || (p =? "B")%char then 2
                   else 0 in
      if negb (isEmpty ds) && allDigitsIn radix ds
      then Some (digitsValue radix ds) else None
  | _ => None
  end.

(** [Number(s)] for a string [s] (StringToNumber): the empty or blank
    string is 0, a literal that does not parse is NaN. *)
Definition Number (s : string) : number :=
  let t := trim s in
  if isEmpty t then Finite 0 0
  else match parseNonDecimalIntegerLiteral t with
       | Some n => roundToDouble false n 1
       | None => parseStrDecimalLiteral t
       end.

(** *** [Number.prototype.toString(2)]

    Every double has a finite binary expansion, and that is what is
    printed: the integer part, then a point and the fraction digits up to
    the last 1 when there is a fraction. *)

Fixpoint binaryOfPositive (p : positive) (acc : string) : string :=
  match p with
  | xH => String "1" acc
  | xO p' => binaryOfPositive p' (String "0" acc)
  | xI p' => binaryOfPositive p' (String "1" acc)
  end.

Definition binaryOfInteger (z : Z) : string :=
  match z with
  | Zpos p => binaryOfPositive p EmptyString
  | _ => "0"
  end.

(** The binary digits of [f / 2^k] after the point, for [0 < f < 2^k]. *)
Fixpoint fractionBits (f : Z) (k : nat) : string :=
  match k with
  | O => EmptyString
  | S k' =>
      let rest := f mod 2 ^ Z.of_nat k' in
      String (if Z.testbit f (Z.of_nat k') then "1" else "0")%char
             (if rest =? 0 then EmptyString else fractionBits rest k')
  end.

Definition binaryOfMagnitude (m e : Z) : string :=
  if 0 <=? e then binaryOfInteger (m * 2 ^ e)
  else
    let f := m mod 2 ^ (- e) in
    binaryOfInteger (m / 2 ^ (- e)) +:+
    (if f =? 0 then EmptyString else String "." (fractionBits f (Z.to_nat (- e)))).

Definition toString2 (x : number) : string :=
  match x with
  | NaN => "NaN"
  | Infinity negative => if negative then "-Infinity" else "Infinity"
  | Finite m e =>
      if m =? 0 then "0"
      else if m <? 0 then String "-" (binaryOfMagnitude (- m) e)
      else binaryOfMagnitude m e
  end.

(** *** [split], [padStart], [join] and indexing *)

(** [s.split(sep)] for a separator of one code unit. *)
Fixpoint split (sep : ascii) (s : string) : list string :=
  match s with
  | EmptyString => [EmptyString]
  | String c s' =>
      if (c =? sep)%char then EmptyString :: split sep s'
      else match split sep s' with
           | h :: t => String c h :: t
           | [] => [String c EmptyString]
           end
  end.

Fixpoint repeatChar (c : ascii) (n : nat) : string :=
  match n with O => EmptyString | S n' => String c (repeatChar c n') end.

(** [s.padStart(n, c)] for a filler of one code unit. *)
Definition padStart (n : nat) (c : ascii) (s : string) : string :=
  repeatChar c (n - String.length s) +:+ s.

(** [parts.join('')]. *)
Definition join (parts : list string) : string :=
  foldr String.append EmptyString parts.

(** [s[i]] used as a property key: the one-unit string at [i], and the
    key ["undefined"] past the end (which the two loops never reach, lemmas
    [ipToBinary_length] and [index_in_range]). *)
Definition index (s : string) (i : nat) : string :=
  match String.get i s with
  | Some c => String c EmptyString
  | None => "undefined"
  end.

End JS.

(** ** Errors and results *)

(** The four [throw new Error(...)] sites of the codec, each with the
    string it interpolates into its message. *)
Inductive error : Type :=
  | InvalidIpFormat (ip : string)
  | InvalidOctet (octet : string)
  | InvalidCidrFormat (cidr : string)
  | InvalidPrefixLength (cidr : string).

Definition message (e : error) : string :=
  match e with
  | InvalidIpFormat ip => "Invalid IP address format: " +:+ ip
  | InvalidOctet octet => "Invalid octet in IP address: " +:+ octet
  | InvalidCidrFormat cidr => "Invalid CIDR format: " +:+ cidr
  | InvalidPrefixLength cidr => "Invalid prefix length in CIDR: " +:+ cidr
  end.

(** The two kinds of failure the specification tells apart. *)
Inductive errorKind : Type := InvalidAddress | InvalidCidr.

Definition kind (e : error) : errorKind :=
  match e with
  | InvalidIpFormat _ | InvalidOctet _ => InvalidAddress
  | InvalidCidrFormat _ | InvalidPrefixLength _ => InvalidCidr
  end.

Inductive result (A : Type) : Type :=
  | Ok (a : A)
  | Throw (e : error).
Arguments Ok {A} a.
Arguments Throw {A} e.

Definition isOk {A} (r : result A) : bool :=
  match r with Ok _ => true | Throw _ => false end.

#[export] Instance result_ret : MRet result := @Ok.
#[export] Instance result_bind : MBind result :=
  fun A B k r => match r with Ok a => k a | Throw e => Throw e end.

(** [xs.map(f)] for a callback that may throw: left to right, stopping at
    the first exception. *)
Fixpoint mapResult {A B} (f : A -> result B) (xs : list A) : result (list B) :=
  match xs with
  | [] => Ok []
  | x :: xs' => y ← f x; ys ← mapResult f xs'; mret (y :: ys)
  end.

(** ** The address codec *)

(** The callback of [octets.map] in [ipToBinary]. *)
Definition octetToBinary (octet : string) : result string :=
  let num := JS.Number octet in
  if JS.isNaN num || JS.lt num (JS.ofZ 0) || JS.gt num (JS.ofZ 255)
  then Throw (InvalidOctet octet)
  else Ok (JS.padStart 8 "0" (JS.toString2 num)).

Definition ipToBinary (ip : string) : result string :=
  let octets := JS.split "." ip in
  if negb (List.length octets =? 4)%nat then Throw (InvalidIpFormat ip)
  else bits ← mapResult octetToBinary octets; mret (JS.join bits).

Definition parseCIDR (cidr : string) : result (string * JS.number) :=
  match JS.split "/" cidr with
  | [ip; prefixLengthStr] =>
      let prefixLength := JS.Number prefixLengthStr in
      if JS.isNaN prefixLength || JS.lt prefixLength (JS.ofZ 0)
         || JS.gt prefixLength (JS.ofZ 32)
      then Throw (InvalidPrefixLength cidr)
      else _ ← ipToBinary ip; mret (ip, prefixLength)
  | _ => Throw (InvalidCidrFormat cidr)
  end.

(** ** The trie *)

Inductive TrieNode (Data : Type) : Type :=
  mkTrieNode { children : gmap string (TrieNode Data); data : list Data }.
Arguments mkTrieNode {Data} children data.
Arguments children {Data} _.
Arguments data {Data} _.

Record Trie (Data : Type) : Type := mkTrie { root : TrieNode Data }.
Arguments mkTrie {Data} root.
Arguments root {Data} _.

(** The number of times the body of [for (let i = 0; i < prefixLength; i++)]
    runs, for a [prefixLength] that passed [parseCIDR]'s test: the test
    [i < prefixLength] holds for the integers [i] below the ceiling of
    [prefixLength] and for no other (lemma [loopCount_spec]). *)
Definition loopCount (prefixLength : JS.number) : nat :=
  match prefixLength with
  | JS.Finite m e => Z.to_nat (JS.ceiling m e)
  | _ => O
  end.

(** Code that reads or mutates a trie and may throw: the outcome and the
    trie as the call leaves it. *)
Definition TrieM (Data A : Type) : Type := Trie Data -> result A * Trie Data.

#[export] Instance TrieM_ret {Data} : MRet (TrieM Data) :=
  fun A a t => (Ok a, t).
#[export] Instance TrieM_bind {Data} : MBind (TrieM Data) :=
  fun A B k c t =>
    match c t with
    | (Ok a, t') => k a t'
    | (Throw e, t') => (Throw e, t')
    end.

Definition lift {Data A} (r : result A) : TrieM Data A := fun t => (r, t).
Definition get {Data} : TrieM Data (Trie Data) := fun t => (Ok t, t).
Definition put {Data} (t : Trie Data) : TrieM Data unit := fun _ => (Ok tt, t).

(** [try { body } catch (error) { handler(error) }]. *)
Definition tryCatch {Data A} (body : TrieM Data A) (handler : error -> TrieM Data A)
  : TrieM Data A :=
  fun t => match body t with
           | (Ok a, t') => (Ok a, t')
           | (Throw e, t') => handler e t'
           end.

Section TrieOps.
Context {Data : Type}.

Definition newTrieNode : TrieNode Data := mkTrieNode ∅ [].
Definition newTrie : Trie Data := mkTrie newTrieNode.

(** The loop of [insert] from index [i] on, with [count] iterations left,
    and the final [node.data.push(data)].  The source walks down by
    reassigning [node] and mutates in place; a node has one owner, so the
    same is said by returning the node the walk is at with its subtree as
    the walk leaves it. *)
Fixpoint insertLoop (binaryIp : string) (record : Data) (count i : nat)
    (node : TrieNode Data) : TrieNode Data :=
  match count with
  | O => mkTrieNode (children node) (data node ++ [record])
  | S count' =>
      let bit := JS.index binaryIp i in
      let child := default newTrieNode (children node !! bit) in
      mkTrieNode
        (<[bit := insertLoop binaryIp record count' (S i) child]> (children node))
        (data node)
  end.

Definition insert (cidr : string) (record : Data) : TrieM Data unit :=
  '(ip, prefixLength) ← lift (parseCIDR cidr);
  binaryIp ← lift (ipToBinary ip);
  t ← get;
  put (mkTrie (insertLoop binaryIp record (loopCount prefixLength) 0 (root t))).

(** The loop of [searchAll] from index [i] on, with [count] iterations
    left. *)
Fixpoint searchLoop (binaryIp : string) (count i : nat)
    (node : TrieNode Data) (matches : list Data) : list Data :=
  match count with
  | O => matches
  | S count' =>
      match children node !! JS.index binaryIp i with
      | Some child =>
          searchLoop binaryIp count' (S i) child
            (if (0 <? List.length (data child))%nat then matches ++ data child
             else matches)
      | None => matches
      end
  end.

Definition searchAll (ip : string) : TrieM Data (list Data) :=
  binaryIp ← lift (ipToBinary ip);
  t ← get;
  mret (searchLoop binaryIp 32 0 (root t) []).

(** One iteration of the driver's [forEach]: the insert under its own
    [try]/[catch], whose handler only logs. *)
Definition insertOrSkip (cidr : string) (record : Data) : TrieM Data unit :=
  tryCatch (insert cidr record) (fun _ => mret tt).

Fixpoint insertEach (ranges : list (string * Data)) : TrieM Data unit :=
  match ranges with
  | [] => mret tt
  | (cidr, record) :: rest => _ ← insertOrSkip cidr record; insertEach rest
  end.

End TrieOps.

(** ** The driver *)

Record CidrRecord : Type := mkCidrRecord {
  ipRange : string;
  description : string;
  number : string;
  country : string;
  status : string
}.

(** [x || d] on strings: the empty string is falsy. *)
Definition orDefault (x d : string) : string :=
  if JS.isEmpty x then d else x.

(** The object literal [findAllIpsInTrie] passes to [insert] for one range. *)
Definition entryOf (rangeObj : CidrRecord) : string * CidrRecord :=
  (ipRange rangeObj,
   mkCidrRecord (ipRange rangeObj) (description rangeObj)
     (orDefault (number rangeObj) "")
     (orDefault (country rangeObj) "")
     (orDefault (status rangeObj) "none")).

(** [findAllIpsInTrie]: a fresh trie, every range inserted under its own
    [try]/[catch], then the search under another. *)
Definition findAllIpsInTrie (ipRanges : list CidrRecord) (ipToFind : string)
  : list CidrRecord :=
  match (_ ← insertEach (map entryOf ipRanges);
         tryCatch (searchAll ipToFind) (fun _ => mret [])) newTrie with
  | (Ok results, _) => results
  | (Throw _, _) => []
  end.

(** ** Vocabulary of the properties *)

(** The property keys [binaryIp[i]], ..., [binaryIp[i + count - 1]]. *)
Definition keysFrom (binaryIp : string) (i count : nat) : list string :=
  map (JS.index binaryIp) (seq i count).

(** The first [n] bits of an encoded address, as the trie walks read them. *)
Definition bitPath (binaryIp : string) (n : nat) : list string :=
  keysFrom binaryIp 0 n.

(** The path a CIDR string is stored under, when [insert] accepts it. *)
Definition prefixOf (cidr : string) : option (list string) :=
  match parseCIDR cidr with
  | Ok (ip, prefixLength) =>
      match ipToBinary ip with
      | Ok binaryIp => Some (bitPath binaryIp (loopCount prefixLength))
      | Throw _ => None
      end
  | Throw _ => None
  end.

(** An encoded address lies in a stored prefix when its leading bits are
    that prefix. *)
Definition covers (prefix : list string) (binaryIp : string) : Prop :=
  bitPath binaryIp (List.length prefix) = prefix.

Section TrieView.
Context {Data : Type}.

(** The node reached from [node] along [keys], if every child exists. *)
Fixpoint nodeAt (keys : list string) (node : TrieNode Data)
    : option (TrieNode Data) :=
  match keys with
  | [] => Some node
  | k :: keys' =>
      match children node !! k with
      | Some child => nodeAt keys' child
      | None => None
      end
  end.

(** The records held at the end of [keys]; none where there is no node. *)
Definition recordsAt (keys : list string) (node : TrieNode Data) : list Data :=
  match nodeAt keys node with
  | Some n => data n
  | None => []
  end.

(** [insertLoop] over the keys it reads. *)
Fixpoint insertPath (keys : list string) (record : Data)
    (node : TrieNode Data) : TrieNode Data :=
  match keys with
  | [] => mkTrieNode (children node) (data node ++ [record])
  | k :: keys' =>
      mkTrieNode
        (<[k := insertPath keys' record
                  (default newTrieNode (children node !! k))]> (children node))
        (data node)
  end.

(** [searchLoop] over the keys it reads: the records met below [node]. *)
Fixpoint collect (keys : list string) (node : TrieNode Data) : list Data :=
  match keys with
  | [] => []
  | k :: keys' =>
      match children node !! k with
      | Some child => data child ++ collect keys' child
      | None => []
      end
  end.

(** The records of the ranges stored under exactly [keys], in order. *)
Fixpoint recordsFor (keys : list string) (ranges : list (string * Data))
    : list Data :=
  match ranges with
  | [] => []
  | (cidr, record) :: rest =>
      (if decide (prefixOf cidr = Some keys) then [record] else [])
      ++ recordsFor keys rest
  end.

(** The trie a sequence of driver inserts builds from scratch. *)
Definition build (ranges : list (string * Data)) : Trie Data :=
  snd (insertEach ranges newTrie).

End TrieView.

(** *** Dotted quads, read the usual way *)

(** A field that is a decimal integer in [0, 255]. *)
Definition isOctetField (s : string) : bool :=
  negb (JS.isEmpty s) && JS.allDigitsIn 10 s && (JS.digitsValue 10 s <=? 255).

Definition octetValue (s : string) : Z := JS.digitsValue 10 s.

Definition bitChar (b : bool) : ascii := if b then "1"%char else "0"%char.

(** The 8-bit big-endian binary numeral of [n]. *)
Definition bin8 (n : Z) : string :=
  String (bitChar (Z.testbit n 7)) (String (bitChar (Z.testbit n 6))
  (String (bitChar (Z.testbit n 5)) (String (bitChar (Z.testbit n 4))
  (String (bitChar (Z.testbit n 3)) (String (bitChar (Z.testbit n 2))
  (String (bitChar (Z.testbit n 1)) (String (bitChar (Z.testbit n 0))
   EmptyString))))))).

Fixpoint isBitString (s : string) : bool :=
  match s with
  | String c s' => ((c =? "0")%char || (c =? "1")%char) && isBitString s'
  | EmptyString => true
  end.

(** Decoding: the bit string cut into groups of 8, each read as a binary
    numeral; a shorter last group is dropped. *)
Fixpoint decodeGroups (fuel : nat) (bits : string) : list Z :=
  match fuel with
  | O => []
  | S fuel' =>
      match bits with
      | String b7 (String b6 (String b5 (String b4
          (String b3 (String b2 (String b1 (String b0 rest))))))) =>
          JS.digitsValue 2
            (String b7 (String b6 (String b5 (String b4
              (String b3 (String b2 (String b1 (String b0 EmptyString))))))))
          :: decodeGroups fuel' rest
      | _ => []
      end
  end.

Definition decode (bits : string) : list Z :=
  decodeGroups (String.length bits) bits.

(** *** The tests of the codec *)

(** The test under which the callback of [ipToBinary] throws. *)
Definition octetRejected (octet : string) : bool :=
  let num := JS.Number octet in
  JS.isNaN num || JS.lt num (JS.ofZ 0) || JS.gt num (JS.ofZ 255).

(** The test under which [parseCIDR] throws on the prefix length. *)
Definition prefixLengthRejected (prefixLengthStr : string) : bool :=
  let prefixLength := JS.Number prefixLengthStr in
  JS.isNaN prefixLength || JS.lt prefixLength (JS.ofZ 0)
  || JS.gt prefixLength (JS.ofZ 32).

(** ** Regular expressions of [read.js]

    The one pattern of [read.js] is a sequence of literal characters and of
    greedy repetitions of a character class, anchored at both ends.  Such
    a pattern is matched by backtracking: a repetition first takes the
    longest run it can and gives characters back one by one while the rest
    of the pattern fails. *)

Module Regex.

Inductive item : Type :=
  | Lit (c : ascii)
  | Rep (capture : bool) (min : nat) (class : ascii -> bool).

(** The double quote. *)
Definition quote : ascii := "034"%char.

(** The classes [\s], [\S], [\d], "any but the double quote" and [.], on
    code units below 256. *)
Definition space : ascii -> bool := JS.isStrWhiteSpaceChar.
Definition nonSpace (c : ascii) : bool := negb (space c).
Definition digit : ascii -> bool := JS.isDecimalDigit.
Definition notQuote (c : ascii) : bool := negb (c =? quote)%char.
Definition dot (c : ascii) : bool :=
  negb ((c =? "010")%char || (c =? "013")%char).

Fixpoint runLength (class : ascii -> bool) (s : string) : nat :=
  match s with
  | String c s' => if class c then S (runLength class s') else O
  | EmptyString => O
  end.

Fixpoint takeChars (n : nat) (s : string) : string :=
  match n, s with
  | S n', String c s' => String c (takeChars n' s')
  | _, _ => EmptyString
  end.

Fixpoint dropChars (n : nat) (s : string) : string :=
  match n, s with
  | S n', String _ s' => dropChars n' s'
  | _, _ => s
  end.

(** A repetition that has [k] characters in hand: the rest of the pattern
    is tried on what follows them, and on failure one character is given
    back, down to [min]. *)
Fixpoint greedy (rest : string -> option (list string)) (capture : bool)
    (min k : nat) (s : string) : option (list string) :=
  match rest (dropChars k s) with
  | Some captures =>
      Some (if capture then takeChars k s :: captures else captures)
  | None =>
      match k with
      | O => None
      | S k' => if (min <=? k')%nat then greedy rest capture min k' s else None
      end
  end.

(** The captures of the first match of [^items$] on the whole of [s]. *)
Fixpoint matchItems (items : list item) (s : string) : option (list string) :=
  match items with
  | [] => if JS.isEmpty s then Some [] else None
  | Lit c :: rest =>
      match s with
      | String c' s' => if (c' =? c)%char then matchItems rest s' else None
      | EmptyString => None
      end
  | Rep capture min class :: rest =>
      let n := runLength class s in
      if (min <=? n)%nat then greedy (matchItems rest) capture min n s else None
  end.

End Regex.

(** ** [read.js] *)

Definition separator : string := "##########################".

(** The pattern of the rule lines, from [^] to [$]: a captured [\S+], a
    comma, [\s+], a double quote, a captured run of one or more characters
    other than the double quote, a double quote, a comma, [\s+], a captured
    [\d+], a comma, [\s+], a second quoted capture like the first, a comma,
    [\s+] and a captured run of any number of [.]. *)
Definition lineRegex : list Regex.item :=
  [Regex.Rep true 1 Regex.nonSpace; Regex.Lit ",";
   Regex.Rep false 1 Regex.space; Regex.Lit Regex.quote;
   Regex.Rep true 1 Regex.notQuote; Regex.Lit Regex.quote; Regex.Lit ",";
   Regex.Rep false 1 Regex.space;
   Regex.Rep true 1 Regex.digit; Regex.Lit ",";
   Regex.Rep false 1 Regex.space; Regex.Lit Regex.quote;
   Regex.Rep true 1 Regex.notQuote; Regex.Lit Regex.quote; Regex.Lit ",";
   Regex.Rep false 1 Regex.space;
   Regex.Rep true 0 Regex.dot].

(** The callback of [relevantLines.map]: [None] is its [null]. *)
Definition parseLine (line : string) : option CidrRecord :=
  if JS.isEmpty (JS.trim line) || String.prefix separator (JS.trim line)
  then None
  else match Regex.matchItems lineRegex line with
       | Some [g1; g2; g3; g4; g5] => Some (mkCidrRecord g1 g2 g3 g4 g5)
       | _ => None
       end.

(** [lines.findIndex(p)], with [None] for [-1]. *)
Fixpoint findIndex {A} (p : A -> bool) (xs : list A) : option nat :=
  match xs with
  | [] => None
  | x :: xs' => if p x then Some O else S <$> findIndex p xs'
  end.

(** [entries.filter(entry => entry !== null)]. *)
Definition filterNonNull {A} (entries : list (option A)) : list A :=
  omap id entries.

(** [readCfgFile], given what [fs.readFile] with the utf8 encoding resolves
    to for each path, [None] standing for a rejection; what goes to the console is left
    out. *)
Definition readCfgFile (readFile : string -> option string) (filePath : string)
  : list CidrRecord :=
  match readFile filePath with
  | Some data =>
      let lines := JS.split "010" data in
      match findIndex (fun line => String.eqb (JS.trim line) separator) lines with
      | None => []
      | Some separatorLineIndex =>
          let relevantLines := drop (separatorLineIndex + 1) lines in
          filterNonNull (map parseLine relevantLines)
      end
  | None => []
  end.

(** The value of [matches] in [main]. *)
Definition mainMatches (readFile : string -> option string) : list CidrRecord :=
  findAllIpsInTrie (readCfgFile readFile "ita-finalv12.cfg") "1.11.40.5".

(** *** Vocabulary for [read.js] *)

Fixpoint allIn (class : ascii -> bool) (s : string) : bool :=
  match s with
  | String c s' => class c && allIn class s'
  | EmptyString => true
  end.

(** The strings a pattern stands for, with the captures each way of
    cutting them yields; the order in which a matcher tries the cuts plays
    no part here. *)
Fixpoint denotes (items : list Regex.item) (s : string) (captures : list string)
  : Prop :=
  match items with
  | [] => s = EmptyString /\ captures = []
  | Regex.Lit c :: rest => exists s', s = String c s' /\ denotes rest s' captures
  | Regex.Rep capture min class :: rest =>
      exists run s' captures',
        s = run +:+ s' /\ allIn class run = true
        /\ (min <= String.length run)%nat
        /\ denotes rest s' captures'
        /\ captures = if capture then run :: captures' else captures'
  end.

(** A rule line as the configuration file writes it: the range, the
    description in double quotes, the number, the country in double quotes
    and the status, with a comma and a blank between any two. *)
Definition formatLine (entry : CidrRecord) : string :=
  ipRange entry +:+ ", " +:+ String Regex.quote (description entry)
  +:+ String Regex.quote ", " +:+ number entry
  +:+ ", " +:+ String Regex.quote (country entry)
  +:+ String Regex.quote ", " +:+ status entry.

Definition headIs (class : ascii -> bool) (s : string) : bool :=
  match s with String c _ => class c | EmptyString => false end.

(** The entries [formatLine] writes in a way [parseLine] reads back. *)
Definition writable (entry : CidrRecord) : bool :=
  negb (JS.isEmpty (ipRange entry)) && allIn Regex.nonSpace (ipRange entry)
  && negb (headIs (fun c => (c =? "#")%char) (ipRange entry))
  && negb (JS.isEmpty (description entry))
  && allIn Regex.notQuote (description entry)
  && negb (JS.isEmpty (number entry)) && allIn Regex.digit (number entry)
  && negb (JS.isEmpty (country entry)) && allIn Regex.notQuote (country entry)
  && allIn Regex.dot (status entry)
  && negb (headIs Regex.space (status entry)).

(** Lines put together with a line feed between any two. *)
Fixpoint joinLines (lines : list string) : string :=
  match lines with
  | [] => EmptyString
  | [line] => line
  | line :: rest => line +:+ String "010" (joinLines rest)
  end.

Definition isSeparatorLine (line : string) : bool :=
  String.eqb (JS.trim line) separator.

Definition noLineFeed (line : string) : bool :=
  allIn (fun c => negb (c =? "010")%char) line.

(** *** Well-formed ranges, integer fields *)

(** A prefix-length field that is a decimal integer in [0, 32]. *)
Definition isPrefixLengthField (s : string) : bool :=
  negb (JS.isEmpty s) && JS.allDigitsIn 10 s && (JS.digitsValue 10 s <=? 32).

Definition dottedQuad (a b c d : string) : string :=
  a +:+ String "." (b +:+ String "." (c +:+ String "." d)).

(** A Number that is an integer, and the integer it is. *)
Definition isInteger (x : JS.number) : bool :=
  match x with
  | JS.Finite m e => (0 <=? e) || (m mod 2 ^ (- e) =? 0)
  | _ => false
  end.

Definition integerValue (m e : Z) : Z :=
  if 0 <=? e then m * 2 ^ e else m / 2 ^ (- e).

(** A Number that is the natural number [p]. *)
Definition denotesNat (x : JS.number) (p : nat) : Prop :=
  match x with
  | JS.Finite m e => isInteger x = true /\ integerValue m e = Z.of_nat p
  | _ => False
  end.

(** ** The loops, read along their keys *)

Section TrieFacts.
Context {Data : Type}.
Implicit Types (node : TrieNode Data) (t : Trie Data) (keys : list string).
Implicit Types (record : Data) (ranges : list (string * Data)).

Lemma keysFrom_S binaryIp i count :
  keysFrom binaryIp i (S count)
  = JS.index binaryIp i :: keysFrom binaryIp (S i) count.
Proof. reflexivity. Qed.

Lemma insertLoop_insertPath binaryIp record count : forall i node,
  insertLoop binaryIp record count i node
  = insertPath (keysFrom binaryIp i count) record node.
Proof.
  induction count as [|count IH]; intros i node; [reflexivity|].
  rewrite keysFrom_S. simpl. by rewrite IH.
Qed.

Lemma searchLoop_collect binaryIp count : forall i node (matches : list Data),
  searchLoop binaryIp count i node matches
  = matches ++ collect (keysFrom binaryIp i count) node.
Proof.
  induction count as [|count IH]; intros i node matches.
  - simpl. by rewrite app_nil_r.
  - rewrite keysFrom_S. simpl.
    destruct (children node !! JS.index binaryIp i) as [child|];
      [|by rewrite app_nil_r].
    rewrite IH. destruct (data child) as [|d ds] eqn:Hd; simpl.
    + reflexivity.
    + by rewrite <- app_assoc.
Qed.

(** *** Reading nodes *)

Lemma nodeAt_newTrieNode keys :
  nodeAt keys (@newTrieNode Data) = if decide (keys = []) then Some newTrieNode else None.
Proof. destruct keys; simpl; [done|]. by rewrite lookup_empty. Qed.

Lemma recordsAt_newTrieNode keys : recordsAt keys (@newTrieNode Data) = [].
Proof.
  unfold recordsAt. rewrite nodeAt_newTrieNode. by case_decide.
Qed.

Lemma recordsAt_cons k keys node :
  recordsAt (k :: keys) node
  = match children node !! k with
    | Some child => recordsAt keys child
    | None => []
    end.
Proof. unfold recordsAt. simpl. by destruct (children node !! k). Qed.

Lemma nodeAt_app keys1 keys2 node :
  nodeAt (keys1 ++ keys2) node = nodeAt keys1 node ≫= nodeAt keys2.
Proof.
  revert node. induction keys1 as [|k keys1 IH]; intros node; simpl; [done|].
  destruct (children node !! k); [apply IH | done].
Qed.

(** *** What one insertion changes *)

Lemma recordsAt_insertPath keys record : forall path node,
  recordsAt path (insertPath keys record node)
  = recordsAt path node ++ (if decide (path = keys) then [record] else []).
Proof.
  induction keys as [|k keys IH]; intros path node.
  - destruct path as [|k' path]; simpl.
    + reflexivity.
    + rewrite !recordsAt_cons. simpl. by rewrite app_nil_r.
  - destruct path as [|k' path].
    + simpl. unfold recordsAt. simpl. by rewrite app_nil_r.
    + rewrite !recordsAt_cons. cbn [insertPath children].
      destruct (decide (k = k')) as [->|Hne].
      * rewrite lookup_insert_eq, IH.
        destruct (children node !! k') as [child|]; cbn [from_option id].
        -- repeat case_decide; congruence.
        -- rewrite recordsAt_newTrieNode. repeat case_decide; congruence.
      * rewrite lookup_insert_ne by done.
        case_decide; [congruence|]. by rewrite app_nil_r.
Qed.

Lemma nodeAt_insertPath_off keys record : forall path node,
  ¬ path `prefix_of` keys ->
  nodeAt path (insertPath keys record node) = nodeAt path node.
Proof.
  induction keys as [|k keys IH]; intros path node Hoff.
  - destruct path as [|k' path]; [|reflexivity].
    destruct Hoff. apply prefix_nil.
  - destruct path as [|k' path]; [destruct Hoff; apply prefix_nil|].
    simpl. destruct (decide (k = k')) as [->|Hne].
    + rewrite lookup_insert_eq.
      assert (¬ path `prefix_of` keys) as Hoff'.
      { intros Hp. apply Hoff. by apply prefix_cons. }
      rewrite IH by done.
      destruct (children node !! k'); simpl; [done|].
      rewrite nodeAt_newTrieNode. case_decide; [|done].
      subst. destruct Hoff'. apply prefix_nil.
    + by rewrite lookup_insert_ne.
Qed.

Lemma nodeAt_insertPath_on keys record : forall path node,
  path `prefix_of` keys -> is_Some (nodeAt path (insertPath keys record node)).
Proof.
  induction keys as [|k keys IH]; intros path node Hon.
  - apply prefix_nil_inv in Hon as ->. simpl. eauto.
  - destruct path as [|k' path]; [simpl; eauto|].
    apply prefix_cons_inv_1 in Hon as Hk. subst k'.
    apply prefix_cons_inv_2 in Hon.
    simpl. rewrite lookup_insert_eq. by apply IH.
Qed.

Lemma nodeAt_insertPath_keeps keys record : forall path node,
  is_Some (nodeAt path node) ->
  is_Some (nodeAt path (insertPath keys record node)).
Proof.
  intros path node Hsome.
  destruct (decide (path `prefix_of` keys)) as [Hon|Hoff].
  - by apply nodeAt_insertPath_on.
  - by rewrite nodeAt_insertPath_off.
Qed.

(** *** What a search collects *)

Lemma collect_app keys1 keys2 : forall node,
  collect (keys1 ++ keys2) node
  = collect keys1 node
    ++ match nodeAt keys1 node with
       | Some n => collect keys2 n
       | None => []
       end.
Proof.
  induction keys1 as [|k keys1 IH]; intros node; simpl; [done|].
  destruct (children node !! k) as [child|]; [|done].
  by rewrite IH, app_assoc.
Qed.

Lemma collect_snoc keys k node :
  collect (keys ++ [k]) node = collect keys node ++ recordsAt (keys ++ [k]) node.
Proof.
  rewrite collect_app. f_equal. unfold recordsAt. rewrite nodeAt_app.
  destruct (nodeAt keys node) as [n|]; simpl; [|done].
  destruct (children n !! k); simpl; [by rewrite app_nil_r | done].
Qed.

Lemma collect_nil keys : forall node,
  (forall path, path <> [] -> path `prefix_of` keys -> recordsAt path node = []) ->
  collect keys node = [].
Proof.
  induction keys as [|k keys IH]; intros node Hempty; simpl; [done|].
  destruct (children node !! k) as [child|] eqn:Hk; [|done].
  rewrite IH.
  - specialize (Hempty [k]). rewrite recordsAt_cons, Hk in Hempty.
    rewrite app_nil_r. apply Hempty; [done|]. by apply prefix_cons, prefix_nil.
  - intros path Hne Hpre. specialize (Hempty (k :: path)).
    rewrite recordsAt_cons, Hk in Hempty.
    apply Hempty; [done|]. by apply prefix_cons.
Qed.

(** *** The operations, run *)

Lemma parseCIDR_ipToBinary cidr ip prefixLength :
  parseCIDR cidr = Ok (ip, prefixLength) -> exists binaryIp, ipToBinary ip = Ok binaryIp.
Proof.
  unfold parseCIDR. intros H.
  destruct (JS.split "/" cidr) as [|ip' [|len [|]]]; try discriminate.
  destruct (_ || _); [discriminate|].
  destruct (ipToBinary ip') as [b|e] eqn:Hb; [|discriminate].
  injection H as <- _. eauto.
Qed.

Lemma prefixOf_None cidr :
  prefixOf cidr = None <-> exists e, parseCIDR cidr = Throw e.
Proof.
  unfold prefixOf. destruct (parseCIDR cidr) as [[ip len]|e] eqn:Hp.
  - destruct (parseCIDR_ipToBinary _ _ _ Hp) as [b ->].
    split; [discriminate | intros [e He]; discriminate].
  - split; eauto.
Qed.

Lemma insert_run cidr record t :
  insert cidr record t
  = match parseCIDR cidr with
    | Ok (ip, prefixLength) =>
        match ipToBinary ip with
        | Ok binaryIp =>
            (Ok tt, mkTrie (insertLoop binaryIp record (loopCount prefixLength)
                              0 (root t)))
        | Throw e => (Throw e, t)
        end
    | Throw e => (Throw e, t)
    end.
Proof.
  unfold insert, mbind, TrieM_bind, lift, get, put.
  destruct (parseCIDR cidr) as [[ip len]|e]; [|reflexivity].
  by destruct (ipToBinary ip).
Qed.

Lemma insert_accepted cidr record t keys :
  prefixOf cidr = Some keys ->
  insert cidr record t = (Ok tt, mkTrie (insertPath keys record (root t))).
Proof.
  rewrite insert_run. unfold prefixOf.
  destruct (parseCIDR cidr) as [[ip len]|e]; [|discriminate].
  destruct (ipToBinary ip) as [b|e]; [|discriminate].
  intros [= <-]. by rewrite insertLoop_insertPath.
Qed.

Lemma insert_rejected cidr record t e :
  parseCIDR cidr = Throw e -> insert cidr record t = (Throw e, t).
Proof. rewrite insert_run. by intros ->. Qed.

Lemma insertOrSkip_run cidr record t :
  insertOrSkip cidr record t
  = (Ok tt, match prefixOf cidr with
            | Some keys => mkTrie (insertPath keys record (root t))
            | None => t
            end).
Proof.
  unfold insertOrSkip, tryCatch.
  destruct (prefixOf cidr) as [keys|] eqn:Hp.
  - by rewrite (insert_accepted _ _ _ _ Hp).
  - apply prefixOf_None in Hp as [e He]. by rewrite (insert_rejected _ _ _ _ He).
Qed.

Lemma insertEach_cons cidr record ranges t :
  insertEach ((cidr, record) :: ranges) t
  = insertEach ranges (snd (insertOrSkip cidr record t)).
Proof.
  cbn [insertEach]. unfold mbind, TrieM_bind.
  by rewrite insertOrSkip_run.
Qed.

Lemma insertEach_ok ranges : forall t, fst (insertEach ranges t) = Ok tt.
Proof.
  induction ranges as [|[cidr record] ranges IH]; intros t; [done|].
  by rewrite insertEach_cons.
Qed.

Lemma recordsAt_insertEach path ranges : forall t,
  recordsAt path (root (snd (insertEach ranges t)))
  = recordsAt path (root t) ++ recordsFor path ranges.
Proof.
  induction ranges as [|[cidr record] ranges IH]; intros t.
  - simpl. by rewrite app_nil_r.
  - rewrite insertEach_cons, IH, insertOrSkip_run. cbn [snd recordsFor].
    rewrite app_assoc. f_equal.
    destruct (prefixOf cidr) as [keys|] eqn:Hp.
    + cbn [root]. rewrite recordsAt_insertPath.
      repeat case_decide; congruence.
    + rewrite decide_False by done. by rewrite app_nil_r.
Qed.

Lemma recordsAt_build path ranges :
  recordsAt path (root (build ranges)) = recordsFor path ranges.
Proof.
  unfold build. rewrite recordsAt_insertEach.
  by rewrite recordsAt_newTrieNode.
Qed.

Lemma searchAll_run ip t :
  searchAll ip t
  = match ipToBinary ip with
    | Ok binaryIp => (Ok (collect (bitPath binaryIp 32) (root t)), t)
    | Throw e => (Throw e, t)
    end.
Proof.
  unfold searchAll, mbind, TrieM_bind, lift, get, mret, TrieM_ret.
  destruct (ipToBinary ip); [|done].
  by rewrite searchLoop_collect.
Qed.

(** A search leaves the trie as it found it. *)
Lemma searchAll_state ip t : snd (searchAll ip t) = t.
Proof. rewrite searchAll_run. by destruct (ipToBinary ip). Qed.

Lemma elem_of_recordsFor record path ranges :
  record ∈ recordsFor path ranges <->
  exists cidr, (cidr, record) ∈ ranges /\ prefixOf cidr = Some path.
Proof.
  induction ranges as [|[c r] ranges IH]; simpl.
  - split; [by intros ?%elem_of_nil | by intros (? & ?%elem_of_nil & _)].
  - rewrite elem_of_app, IH. split.
    + intros [Hin|(cidr & Hin & Hp)].
      * case_decide; [|by apply elem_of_nil in Hin].
        apply list_elem_of_singleton in Hin as ->.
        exists c. split; [apply elem_of_cons; by left | done].
      * exists cidr. split; [apply elem_of_cons; by right | done].
    + intros (cidr & [[= -> ->]|Hin]%elem_of_cons & Hp).
      * left. rewrite decide_True by done. by apply list_elem_of_singleton.
      * right. eauto.
Qed.

End TrieFacts.

(** ** Numbers and loop counts *)

Lemma loopCount_le_32 prefixLength :
  JS.gt prefixLength (JS.ofZ 32) = false -> (loopCount prefixLength <= 32)%nat.
Proof.
  destruct prefixLength as [|negative|m e]; simpl; try lia.
  unfold JS.gt, JS.lt, JS.ofZ, JS.ceiling. intros Hle%Z.ltb_ge.
  destruct (Z.leb_spec 0 e) as [He|He].
  - rewrite Z.min_l, Z.sub_0_r in Hle by lia. change (2 ^ (0 - 0)) with 1 in Hle. lia.
  - rewrite Z.min_r, Z.sub_diag in Hle by lia. change (0 - e) with (- e) in Hle.
    change (2 ^ 0) with 1 in Hle.
    assert (0 < 2 ^ (- e)) as Hd by (apply Z.pow_pos_nonneg; lia).
    assert (- 32 <= - m / 2 ^ (- e)); [|lia].
    apply Z.div_le_lower_bound; lia.
Qed.

(** The loop test [i < prefixLength] holds for exactly the first
    [loopCount prefixLength] values of [i]. *)
Lemma loopCount_spec prefixLength (i : nat) :
  JS.gt prefixLength (JS.ofZ 32) = false ->
  (i < loopCount prefixLength)%nat <-> JS.lt (JS.ofNat i) prefixLength = true.
Proof.
  destruct prefixLength as [|[]|m e]; cbn [loopCount];
    unfold JS.gt, JS.ofNat, JS.ofZ, JS.lt; cbn [negb].
  1,2: intros _; split; [lia|discriminate].
  1: discriminate.
  - intros _. unfold JS.ceiling. rewrite Z.ltb_lt.
    destruct (Z.leb_spec 0 e) as [He|He].
    + rewrite Z.min_l, !Z.sub_0_r by lia. change (2 ^ 0) with 1. lia.
    + rewrite Z.min_r, Z.sub_diag by lia. change (0 - e) with (- e).
      change (2 ^ 0) with 1.
      assert (0 < 2 ^ (- e)) as Hd by (apply Z.pow_pos_nonneg; lia).
      pose proof (Z.div_mod (- m) (2 ^ (- e))) as Hdm.
      pose proof (Z.mod_pos_bound (- m) (2 ^ (- e)) Hd) as Hr.
      split; intros H; nia.
Qed.

Lemma bitPath_length binaryIp n : List.length (bitPath binaryIp n) = n.
Proof. unfold bitPath, keysFrom. by rewrite length_map, length_seq. Qed.

Lemma take_bitPath binaryIp j n :
  take j (bitPath binaryIp n) = bitPath binaryIp (j `min` n).
Proof. unfold bitPath, keysFrom. by rewrite <- fmap_take, take_seq. Qed.

Lemma prefix_of_bitPath path binaryIp n :
  path `prefix_of` bitPath binaryIp n ->
  bitPath binaryIp (List.length path) = path /\ (List.length path <= n)%nat.
Proof.
  intros Hpre. pose proof (prefix_length _ _ Hpre) as Hlen.
  rewrite bitPath_length in Hlen. split; [|done].
  destruct Hpre as [rest Heq].
  assert (take (List.length path) (bitPath binaryIp n) = path) as Htake.
  { rewrite Heq. by rewrite take_app_length. }
  rewrite take_bitPath in Htake. by rewrite Nat.min_l in Htake.
Qed.

Lemma bitPath_prefix binaryIp j n :
  (j <= n)%nat -> bitPath binaryIp j `prefix_of` bitPath binaryIp n.
Proof.
  intros Hle. rewrite <- (Nat.min_l j n), <- take_bitPath by done.
  apply prefix_take.
Qed.

(** ** Decimal fields through [Number] *)

Lemma decimal_digit_plain c :
  JS.isDecimalDigit c = true ->
  JS.isStrWhiteSpaceChar c = false
  /\ JS.splitSign (String c EmptyString) = (false, String c EmptyString)
  /\ (c =? "I")%char = false
  /\ ((c =? "x") || (c =? "X"))%char = false
  /\ ((c =? "o") || (c =? "O"))%char = false
  /\ ((c =? "b") || (c =? "B"))%char = false.
Proof.
  destruct c as [[] [] [] [] [] [] [] []]; vm_compute; intros H;
    first [discriminate H | repeat split].
Qed.

Lemma digitValue_nonneg c : 0 <= default 0 (JS.digitValue c).
Proof.
  unfold JS.digitValue.
  repeat match goal with
         | |- context [if ?b then _ else _] => destruct b eqn:?
         end; simpl; lia.
Qed.

Lemma digitsValueFrom_nonneg radix s : forall acc,
  0 <= radix -> 0 <= acc -> 0 <= JS.digitsValueFrom radix acc s.
Proof.
  induction s as [|c s IH]; intros acc Hr Hacc; simpl; [done|].
  apply IH; [done|]. pose proof (digitValue_nonneg c). nia.
Qed.

Lemma trimEnd_decimal s : JS.allDigitsIn 10 s = true -> JS.trimEnd s = s.
Proof.
  induction s as [|c s IH]; simpl; [done|].
  intros [Hc Hs]%andb_prop. rewrite (IH Hs).
  destruct (decimal_digit_plain c Hc) as (-> & _). by destruct s.
Qed.

Lemma spanDigits_decimal s :
  JS.allDigitsIn 10 s = true -> JS.spanDigits s = (s, EmptyString).
Proof.
  induction s as [|c s IH]; simpl; [done|].
  intros [Hc Hs]%andb_prop. unfold JS.isDecimalDigit. by rewrite Hc, (IH Hs).
Qed.

Lemma allDigitsIn_0 s : JS.isEmpty s = false -> JS.allDigitsIn 0 s = false.
Proof.
  destruct s as [|c s]; [done|]. intros _. simpl.
  unfold JS.isDigitIn. pose proof (digitValue_nonneg c) as Hc.
  destruct (JS.digitValue c) as [v|]; [|done]. simpl in Hc.
  by rewrite (proj2 (Z.ltb_ge v 0)) by done.
Qed.

Lemma append_empty_r s : s +:+ EmptyString = s.
Proof. induction s as [|c s IH]; simpl; [done|]. by rewrite IH. Qed.

(** A non-empty run of decimal digits denotes the double nearest to the
    integer it spells. *)
Lemma Number_decimal s :
  JS.isEmpty s = false -> JS.allDigitsIn 10 s = true ->
  JS.Number s = JS.roundToDouble false (JS.digitsValue 10 s) 1.
Proof.
  intros Hne Hall. destruct s as [|c s]; [done|].
  pose proof Hall as [Hc Hs]%andb_prop.
  destruct (decimal_digit_plain c Hc) as (Hws & Hsign & HI & Hx & Ho & Hb).
  unfold JS.Number, JS.trim.
  assert (JS.trimStart (String c s) = String c s) as -> by (simpl; by rewrite Hws).
  rewrite (trimEnd_decimal _ Hall). cbn [JS.isEmpty].
  assert (JS.parseNonDecimalIntegerLiteral (String c s) = None) as ->.
  { unfold JS.parseNonDecimalIntegerLiteral.
    destruct s as [|p ds]; [by destruct c as [[] [] [] [] [] [] [] []]|].
    simpl in Hs. apply andb_prop in Hs as [Hp _].
    destruct (decimal_digit_plain p Hp) as (_ & _ & _ & -> & -> & ->).
    destruct (JS.isEmpty ds) eqn:Hds.
    - by destruct c as [[] [] [] [] [] [] [] []].
    - rewrite (allDigitsIn_0 _ Hds).
      by destruct c as [[] [] [] [] [] [] [] []]. }
  unfold JS.parseStrDecimalLiteral.
  assert (JS.splitSign (String c s) = (false, String c s)) as ->.
  { revert Hsign. unfold JS.splitSign.
    by destruct c as [[] [] [] [] [] [] [] []]. }
  assert (String.eqb (String c s) "Infinity" = false) as ->.
  { simpl. by rewrite HI. }
  unfold JS.parseUnsignedDecimal. rewrite (spanDigits_decimal _ Hall).
  cbn. rewrite append_empty_r.
  change (JS.digitsValueFrom 10 (0 * 10 + default 0 (JS.digitValue c)) s)
    with (JS.digitsValue 10 (String c s)).
  by rewrite Z.mul_1_r.
Qed.

Lemma forallb_Z_range (f : Z -> bool) (bound : nat) :
  forallb f (map Z.of_nat (seq 0 bound)) = true ->
  forall n, 0 <= n < Z.of_nat bound -> f n = true.
Proof.
  rewrite forallb_forall. intros Hall n Hn. apply Hall.
  apply in_map_iff. exists (Z.to_nat n). split; [lia|].
  apply in_seq. lia.
Qed.

(** What the callback of [ipToBinary] does with the double of an integer
    between 0 and 255. *)
Lemma octet_image n :
  0 <= n <= 255 ->
  let num := JS.roundToDouble false n 1 in
  JS.isNaN num = false /\ JS.lt num (JS.ofZ 0) = false
  /\ JS.gt num (JS.ofZ 255) = false
  /\ JS.padStart 8 "0" (JS.toString2 num) = bin8 n.
Proof.
  intros Hn.
  pose (check := fun n =>
    let num := JS.roundToDouble false n 1 in
    negb (JS.isNaN num) && negb (JS.lt num (JS.ofZ 0))
    && negb (JS.gt num (JS.ofZ 255))
    && String.eqb (JS.padStart 8 "0" (JS.toString2 num)) (bin8 n)).
  assert (check n = true) as Hcheck.
  { apply (forallb_Z_range check 256); [by vm_compute | lia]. }
  unfold check in Hcheck. cbv zeta in Hcheck |- *.
  repeat (apply andb_prop in Hcheck as [Hcheck ?]).
  repeat split; try by apply negb_true_iff.
  by apply String.eqb_eq.
Qed.

Lemma bin8_value n : 0 <= n <= 255 -> JS.digitsValue 2 (bin8 n) = n.
Proof.
  intros Hn.
  apply Z.eqb_eq.
  apply (forallb_Z_range (fun n => JS.digitsValue 2 (bin8 n) =? n) 256);
    [by vm_compute | lia].
Qed.

Lemma isBitString_bitChar b s : isBitString (String (bitChar b) s) = isBitString s.
Proof. by destruct b. Qed.

Lemma isBitString_app s1 s2 :
  isBitString (s1 +:+ s2) = isBitString s1 && isBitString s2.
Proof.
  induction s1 as [|c s1 IH]; simpl; [done|]. by rewrite IH, andb_assoc.
Qed.

Lemma isBitString_bin8 n : isBitString (bin8 n) = true.
Proof. unfold bin8. by rewrite !isBitString_bitChar. Qed.

Lemma octetToBinary_field s :
  isOctetField s = true -> octetToBinary s = Ok (bin8 (octetValue s)).
Proof.
  unfold isOctetField, octetValue.
  intros [[Hne%negb_true_iff Hall]%andb_prop Hle%Z.leb_le]%andb_prop.
  unfold octetToBinary. rewrite (Number_decimal _ Hne Hall).
  assert (0 <= JS.digitsValue 10 s <= 255) as Hrange.
  { split; [|done]. by apply digitsValueFrom_nonneg. }
  destruct (octet_image _ Hrange) as (-> & -> & -> & ->). done.
Qed.

Lemma decodeGroups_bin8 fuel n rest :
  decodeGroups (S fuel) (bin8 n +:+ rest)
  = JS.digitsValue 2 (bin8 n) :: decodeGroups fuel rest.
Proof. reflexivity. Qed.

(** ** The codec on well-formed input *)

(** C3. For a string that splits on dots into exactly four fields, each a
    decimal integer between 0 and 255, [ipToBinary] returns the four 8-bit
    big-endian numerals of the fields, in field order: 32 characters, each
    a 0 or a 1, and reading the groups of 8 back as binary numerals gives
    the four octets again. *)
Theorem ipToBinary_roundtrip ip a b c d :
  JS.split "." ip = [a; b; c; d] ->
  isOctetField a = true -> isOctetField b = true ->
  isOctetField c = true -> isOctetField d = true ->
  let bits := bin8 (octetValue a) +:+ bin8 (octetValue b)
              +:+ bin8 (octetValue c) +:+ bin8 (octetValue d) in
  ipToBinary ip = Ok bits
  /\ String.length bits = 32%nat
  /\ isBitString bits = true
  /\ decode bits = [octetValue a; octetValue b; octetValue c; octetValue d].
Proof.
  intros Hsplit Ha Hb Hc Hd bits.
  assert (forall s, isOctetField s = true -> 0 <= octetValue s <= 255) as Hrange.
  { intros s [[_ _]%andb_prop Hle%Z.leb_le]%andb_prop. split; [|done].
    by apply digitsValueFrom_nonneg. }
  split; [|split; [|split]].
  - unfold ipToBinary. rewrite Hsplit. cbn [List.length Nat.eqb negb mapResult].
    rewrite (octetToBinary_field _ Ha), (octetToBinary_field _ Hb),
      (octetToBinary_field _ Hc), (octetToBinary_field _ Hd).
    reflexivity.
  - reflexivity.
  - unfold bits. rewrite !isBitString_app, !isBitString_bin8. reflexivity.
  - unfold decode.
    change (String.length bits) with 32%nat. unfold bits.
    rewrite !decodeGroups_bin8.
    rewrite <- (append_empty_r (bin8 (octetValue d))), decodeGroups_bin8.
    rewrite !bin8_value by auto. reflexivity.
Qed.

Lemma ipToBinary_roundtrip_witness :
  JS.split "." "1.11.128.0" = ["1"; "11"; "128"; "0"]
  /\ ipToBinary "1.11.128.0" = Ok "00000001000010111000000000000000"
  /\ decode "00000001000010111000000000000000" = [1; 11; 128; 0].
Proof.
  split; [reflexivity|].
  destruct (ipToBinary_roundtrip "1.11.128.0" "1" "11" "128" "0"
              eq_refl eq_refl eq_refl eq_refl eq_refl) as (Hbits & _ & _ & Hdec).
  split; [exact Hbits | exact Hdec].
Defined.

(** ** Where the code leaves the documented behaviour *)

(** C1, at the failing input.  [insert] puts a record given under
    [0.0.0.0/0] into the root's [data], and [searchAll] on [1.2.3.4]
    returns the empty array: the loop reads [data] only of the nodes it
    steps down to, never of the root it starts from. *)
Theorem depth0_record_not_reported {Data} (record : Data) :
  insert "0.0.0.0/0" record newTrie = (Ok tt, mkTrie (mkTrieNode ∅ [record]))
  /\ searchAll "1.2.3.4" (mkTrie (mkTrieNode ∅ [record]))
     = (Ok [], mkTrie (mkTrieNode ∅ [record])).
Proof. split; vm_compute; reflexivity. Qed.

(** C2, at the failing input.  Record [A] under [0.0.0.0/0] and record [B]
    under [10.0.0.0/8]: the empty prefix of [A] is a strict prefix of the
    8-bit prefix of [B], the address [10.1.2.3] starts with [B]'s 8 bits,
    and [searchAll] returns [B] alone. *)
Theorem depth0_ancestor_not_reported {Data} (A B : Data) :
  prefixOf "0.0.0.0/0" = Some []
  /\ prefixOf "10.0.0.0/8" = Some (bitPath "00001010" 8)
  /\ (exists bits, ipToBinary "10.1.2.3" = Ok bits
                   /\ covers (bitPath "00001010" 8) bits)
  /\ fst (searchAll "10.1.2.3" (build [("0.0.0.0/0", A); ("10.0.0.0/8", B)]))
     = Ok [B].
Proof.
  repeat split; try (vm_compute; reflexivity).
  eexists. split; vm_compute; reflexivity.
Qed.

(** C4, at the failing input.  Two records under [0.0.0.0/0] are both kept
    at the root, in insertion order, and [searchAll] on [1.2.3.4], which
    lies in that block, returns neither. *)
Theorem depth0_pair_not_reported {Data} (first second : Data) :
  data (root (build [("0.0.0.0/0", first); ("0.0.0.0/0", second)]))
  = [first; second]
  /\ fst (searchAll "1.2.3.4"
            (build [("0.0.0.0/0", first); ("0.0.0.0/0", second)]))
     = Ok [].
Proof. split; vm_compute; reflexivity. Qed.

(** C5, at the failing input.  The field [5e-1] denotes one half, which is
    neither NaN nor below 0 nor above 255, so [ipToBinary] does not throw;
    the result carries the point of [(0.5).toString(2)]. *)
Theorem fractional_octet_accepted :
  JS.toString2 (JS.Number "5e-1") = "0.1"
  /\ ipToBinary "5e-1.0.0.0" = Ok "000000.1000000000000000000000000".
Proof. split; vm_compute; reflexivity. Qed.

(** C6, at the failing input.  The prefix length [8.5] is neither NaN nor
    below 0 nor above 32, so [parseCIDR] returns it as it is, and the loop
    of [insert] then runs 9 times. *)
Theorem fractional_prefix_accepted :
  parseCIDR "1.2.3.4/8.5" = Ok ("1.2.3.4", JS.Finite (17 * 2 ^ 48) (-49))
  /\ JS.toString2 (JS.Finite (17 * 2 ^ 48) (-49)) = "1000.1"
  /\ loopCount (JS.Finite (17 * 2 ^ 48) (-49)) = 9%nat.
Proof. repeat split; vm_compute; reflexivity. Qed.

(** ** Failures and misses *)

Lemma insert_Ok_inv {Data} cidr (record : Data) t t' :
  insert cidr record t = (Ok tt, t') ->
  exists keys, prefixOf cidr = Some keys
               /\ t' = mkTrie (insertPath keys record (root t)).
Proof.
  destruct (prefixOf cidr) as [keys|] eqn:Hp.
  - rewrite (insert_accepted _ _ _ _ Hp). intros [= <-]. eauto.
  - apply prefixOf_None in Hp as [e He].
    rewrite (insert_rejected _ _ _ _ He). discriminate.
Qed.

Lemma insert_Throw_inv {Data} cidr (record : Data) t t' e :
  insert cidr record t = (Throw e, t') -> parseCIDR cidr = Throw e /\ t' = t.
Proof.
  rewrite insert_run. destruct (parseCIDR cidr) as [[ip len]|e'] eqn:Hp.
  - destruct (parseCIDR_ipToBinary _ _ _ Hp) as [b ->]. discriminate.
  - by intros [= -> ->].
Qed.

Lemma recordsFor_nil {Data} path (ranges : list (string * Data)) :
  (forall cidr record, (cidr, record) ∈ ranges -> prefixOf cidr <> Some path) ->
  recordsFor path ranges = [].
Proof.
  intros Hnone. apply elem_of_nil_inv. intros record Hin.
  apply elem_of_recordsFor in Hin as (cidr & Hin & Hp).
  by apply (Hnone cidr record).
Qed.

(** A query address that the codec accepts and that lies in none of the
    stored prefixes gets the empty array, as a normal return; a query
    address that the codec rejects makes [searchAll] throw that same error,
    whatever the trie holds.  In both cases the trie is left as it was. *)
Lemma searchAll_unmatched_or_malformed {Data}
    (ranges : list (string * Data)) (t : Trie Data) ip :
  (forall bits,
      ipToBinary ip = Ok bits ->
      (forall cidr record prefix,
          (cidr, record) ∈ ranges -> prefixOf cidr = Some prefix ->
          ~ covers prefix bits) ->
      searchAll ip (build ranges) = (Ok [], build ranges))
  /\ (forall e, ipToBinary ip = Throw e -> searchAll ip t = (Throw e, t)).
Proof.
  split.
  - intros bits Hbits Hnone. rewrite searchAll_run, Hbits.
    rewrite collect_nil; [done|].
    intros path Hne Hpre. rewrite recordsAt_build.
    apply recordsFor_nil. intros cidr record Hin Hp.
    apply (Hnone cidr record path Hin Hp).
    by apply prefix_of_bitPath in Hpre as [Hcov _].
  - intros e He. by rewrite searchAll_run, He.
Qed.

Lemma searchAll_unmatched_or_malformed_witness :
  searchAll "11.0.0.0" (build [("10.0.0.0/8", "ten")])
  = (Ok [], build [("10.0.0.0/8", "ten")])
  /\ searchAll "11.0.0" (build [("10.0.0.0/8", "ten")])
     = (Throw (InvalidIpFormat "11.0.0"), build [("10.0.0.0/8", "ten")]).
Proof.
  split.
  - apply (proj1 (searchAll_unmatched_or_malformed
                    [("10.0.0.0/8", "ten")] newTrie "11.0.0.0")
             "00001011000000000000000000000000" eq_refl).
    intros cidr record prefix Hin Hp Hcov.
    apply list_elem_of_singleton in Hin. injection Hin as -> ->.
    vm_compute in Hp. injection Hp as <-.
    vm_compute in Hcov. discriminate Hcov.
  - apply (proj2 (searchAll_unmatched_or_malformed
                    [("10.0.0.0/8", "ten")]
                    (build [("10.0.0.0/8", "ten")]) "11.0.0")).
    reflexivity.
Defined.

(** When the codec rejects the CIDR string, [insert] throws that error and
    the trie is the one it was called on: no node is added and no record
    stored, so whatever is inserted afterwards, every later [searchAll]
    gives what it would have given without the call. *)
Lemma insert_rejected_leaves_trie {Data} cidr (record : Data) t e :
  parseCIDR cidr = Throw e ->
  insert cidr record t = (Throw e, t)
  /\ forall ranges ip,
       searchAll ip (snd (insertEach ranges (snd (insert cidr record t))))
       = searchAll ip (snd (insertEach ranges t)).
Proof.
  intros Hp. rewrite (insert_rejected _ _ _ _ Hp). by split.
Qed.

Lemma insert_rejected_leaves_trie_witness :
  parseCIDR "1.11.0.0/33" = Throw (InvalidPrefixLength "1.11.0.0/33")
  /\ insert "1.11.0.0/33" "bad" (build [("1.11.0.0/16", "ISP-A")])
     = (Throw (InvalidPrefixLength "1.11.0.0/33"),
        build [("1.11.0.0/16", "ISP-A")]).
Proof.
  split; [reflexivity|].
  apply (insert_rejected_leaves_trie "1.11.0.0/33" "bad"
           (build [("1.11.0.0/16", "ISP-A")])
           (InvalidPrefixLength "1.11.0.0/33")).
  reflexivity.
Defined.

(** ** Host bits *)





(** ** What the codec accepts *)

Lemma octetToBinary_unfold octet :
  octetToBinary octet
  = if octetRejected octet then Throw (InvalidOctet octet)
    else Ok (JS.padStart 8 "0" (JS.toString2 (JS.Number octet))).
Proof. reflexivity. Qed.

Lemma mapResult_isOk {A B} (f : A -> result B) xs :
  isOk (mapResult f xs) = forallb (fun x => isOk (f x)) xs.
Proof.
  induction xs as [|x xs IH]; simpl; [done|].
  unfold mbind, result_bind. destruct (f x); simpl; [|done].
  rewrite <- IH. by destruct (mapResult f xs).
Qed.

Lemma mapResult_Throw {A B} (f : A -> result B) xs e :
  mapResult f xs = Throw e -> exists x, x ∈ xs /\ f x = Throw e.
Proof.
  induction xs as [|x xs IH]; simpl; [discriminate|].
  unfold mbind, result_bind. destruct (f x) as [y|e'] eqn:Hx.
  - destruct (mapResult f xs) as [ys|e'']; [discriminate|].
    intros [= ->]. destruct IH as (x' & Hin & Hx'); [done|].
    exists x'. split; [by apply elem_of_cons; right | done].
  - intros [= ->]. exists x. split; [by apply elem_of_cons; left | done].
Qed.

(** [ipToBinary] returns exactly when there are four fields and none of
    them trips the callback's test. *)
Lemma ipToBinary_isOk ip :
  isOk (ipToBinary ip)
  = (List.length (JS.split "." ip) =? 4)%nat
    && forallb (fun octet => negb (octetRejected octet)) (JS.split "." ip).
Proof.
  unfold ipToBinary. destruct (List.length (JS.split "." ip) =? 4)%nat; [|done].
  cbn [negb andb]. unfold mbind, result_bind.
  assert (forall octets,
            forallb (fun x => isOk (octetToBinary x)) octets
            = forallb (fun octet => negb (octetRejected octet)) octets) as <-.
  { intros octets. induction octets as [|octet octets IH]; simpl; [done|].
    rewrite IH, octetToBinary_unfold. by destruct (octetRejected octet). }
  rewrite <- mapResult_isOk. by destruct (mapResult octetToBinary (JS.split "." ip)).
Qed.

(** The error of [ipToBinary] carries the whole string when the field count
    is wrong, and otherwise a field that trips the test. *)
Lemma ipToBinary_Throw ip e :
  ipToBinary ip = Throw e ->
  kind e = InvalidAddress
  /\ (e = InvalidIpFormat ip
      \/ exists octet, octet ∈ JS.split "." ip /\ octetRejected octet = true
                       /\ e = InvalidOctet octet).
Proof.
  unfold ipToBinary. destruct (List.length (JS.split "." ip) =? 4)%nat; cbn [negb].
  - unfold mbind, result_bind.
    destruct (mapResult octetToBinary (JS.split "." ip)) as [bits|e'] eqn:Hmap;
      [discriminate|].
    intros [= ->]. apply mapResult_Throw in Hmap as (octet & Hin & Hoctet).
    rewrite octetToBinary_unfold in Hoctet.
    destruct (octetRejected octet) eqn:Hrej; [|discriminate].
    injection Hoctet as <-. split; [done|]. right. eauto.
  - intros [= <-]. split; [done|]. by left.
Qed.

(** [parseCIDR] returns exactly when there are two fields, the second does
    not trip the prefix-length test and [ipToBinary] takes the first. *)
Lemma parseCIDR_isOk cidr :
  isOk (parseCIDR cidr)
  = match JS.split "/" cidr with
    | [ip; prefixLengthStr] =>
        negb (prefixLengthRejected prefixLengthStr) && isOk (ipToBinary ip)
    | _ => false
    end.
Proof.
  unfold parseCIDR.
  destruct (JS.split "/" cidr) as [|ip [|len [|]]]; try done.
  fold (prefixLengthRejected len).
  destruct (prefixLengthRejected len); [done|].
  cbn [negb andb]. unfold mbind, result_bind. by destruct (ipToBinary ip).
Qed.

Lemma parseCIDR_Ok cidr ip prefixLength :
  parseCIDR cidr = Ok (ip, prefixLength) ->
  exists prefixLengthStr,
    JS.split "/" cidr = [ip; prefixLengthStr]
    /\ prefixLength = JS.Number prefixLengthStr
    /\ prefixLengthRejected prefixLengthStr = false.
Proof.
  unfold parseCIDR.
  destruct (JS.split "/" cidr) as [|ip' [|len [|]]]; try discriminate.
  fold (prefixLengthRejected len).
  destruct (prefixLengthRejected len) eqn:Hrej; [discriminate|].
  unfold mbind, result_bind. destruct (ipToBinary ip'); [|discriminate].
  intros [= <- <-]. eauto.
Qed.

Lemma prefixOf_length cidr keys :
  prefixOf cidr = Some keys -> (List.length keys <= 32)%nat.
Proof.
  unfold prefixOf. destruct (parseCIDR cidr) as [[ip len]|] eqn:Hp; [|discriminate].
  destruct (ipToBinary ip) as [bits|]; [|discriminate].
  intros [= <-]. rewrite bitPath_length.
  apply parseCIDR_Ok in Hp as (s & _ & -> & Hrej).
  apply loopCount_le_32.
  unfold prefixLengthRejected in Hrej. cbv zeta in Hrej.
  by apply orb_false_elim in Hrej as [_ ?].
Qed.

(** A decimal prefix length between 0 and 32 makes the loop of [insert] run
    that many times. *)
Lemma loopCount_decimal s :
  JS.isEmpty s = false -> JS.allDigitsIn 10 s = true ->
  JS.digitsValue 10 s <= 32 ->
  prefixLengthRejected s = false
  /\ loopCount (JS.Number s) = Z.to_nat (JS.digitsValue 10 s).
Proof.
  intros Hne Hall Hle. unfold prefixLengthRejected.
  rewrite (Number_decimal _ Hne Hall).
  assert (0 <= JS.digitsValue 10 s) as Hge by by apply digitsValueFrom_nonneg.
  pose (check := fun n =>
    let num := JS.roundToDouble false n 1 in
    negb (JS.isNaN num || JS.lt num (JS.ofZ 0) || JS.gt num (JS.ofZ 32))
    && (loopCount num =? Z.to_nat n)%nat).
  assert (check (JS.digitsValue 10 s) = true) as Hcheck.
  { apply (forallb_Z_range check 33); [by vm_compute | lia]. }
  unfold check in Hcheck. cbv zeta in Hcheck |- *.
  apply andb_prop in Hcheck as [Hrej%negb_true_iff Hcount%Nat.eqb_eq].
  by split.
Qed.

(** Every field contributes at least 8 characters, so the indices 0 to 31
    that the two loops read are always inside the encoded address. *)
Lemma length_append s1 s2 :
  String.length (s1 +:+ s2) = (String.length s1 + String.length s2)%nat.
Proof. induction s1 as [|c s1 IH]; simpl; [done|]. by rewrite IH. Qed.

Lemma length_repeatChar c n : String.length (JS.repeatChar c n) = n.
Proof. induction n as [|n IH]; simpl; [done|]. by rewrite IH. Qed.

Lemma length_padStart n c s : (n <= String.length (JS.padStart n c s))%nat.
Proof.
  unfold JS.padStart. rewrite length_append, length_repeatChar. lia.
Qed.

Lemma mapResult_Ok_Forall2 {A B} (f : A -> result B) xs ys :
  mapResult f xs = Ok ys -> Forall2 (fun x y => f x = Ok y) xs ys.
Proof.
  revert ys. induction xs as [|x xs IH]; intros ys; simpl.
  - intros [= <-]. constructor.
  - unfold mbind, result_bind. destruct (f x) as [y|] eqn:Hx; [|discriminate].
    destruct (mapResult f xs) as [ys'|]; [|discriminate].
    intros [= <-]. constructor; [done | by apply IH].
Qed.

Lemma ipToBinary_length ip bits :
  ipToBinary ip = Ok bits -> (32 <= String.length bits)%nat.
Proof.
  unfold ipToBinary.
  destruct (List.length (JS.split "." ip) =? 4)%nat eqn:Hlen; [|discriminate].
  cbn [negb]. unfold mbind, result_bind.
  destruct (mapResult octetToBinary (JS.split "." ip)) as [parts|] eqn:Hmap;
    [|discriminate].
  intros [= <-]. apply Nat.eqb_eq in Hlen.
  apply mapResult_Ok_Forall2 in Hmap.
  pose proof (Forall2_length _ _ _ Hmap) as Hlen'. rewrite Hlen in Hlen'.
  assert (Forall (fun part => (8 <= String.length part)%nat) parts) as Hparts.
  { clear Hlen Hlen'. induction Hmap as [|octet part octets parts Hoctet _ IH];
      constructor; [|done].
    rewrite octetToBinary_unfold in Hoctet.
    destruct (octetRejected octet); [discriminate|].
    injection Hoctet as <-. apply length_padStart. }
  destruct parts as [|p1 [|p2 [|p3 [|p4 [|]]]]]; try discriminate.
  apply Forall_cons in Hparts as [H1 Hparts].
  apply Forall_cons in Hparts as [H2 Hparts].
  apply Forall_cons in Hparts as [H3 Hparts].
  apply Forall_cons in Hparts as [H4 _].
  unfold JS.join. cbn [foldr]. rewrite !length_append. simpl. lia.
Qed.

Lemma index_in_range s i :
  (i < String.length s)%nat ->
  exists c, String.get i s = Some c /\ JS.index s i = String c EmptyString.
Proof.
  revert i. induction s as [|c s IH]; intros i Hi; simpl in Hi; [lia|].
  destruct i as [|i].
  - exists c. by split.
  - destruct (IH i) as (c' & Hget & Hindex); [lia|].
    exists c'. unfold JS.index in *. simpl. by rewrite Hget.
Qed.

(** ** Below the root *)

Section BelowTheRoot.
Context {Data : Type}.
Implicit Types (node : TrieNode Data) (t : Trie Data) (keys : list string).
Implicit Types (ranges : list (string * Data)).

Lemma collect_children keys node node' :
  children node = children node' -> collect keys node = collect keys node'.
Proof. intros Heq. destruct keys; simpl; [done|]. by rewrite Heq. Qed.

(** The records held by the root have no part in the result of a search. *)
Lemma searchAll_ignores_root_records ip t (records : list Data) :
  fst (searchAll ip (mkTrie (mkTrieNode (children (root t)) records)))
  = fst (searchAll ip t).
Proof.
  rewrite !searchAll_run. destruct (ipToBinary ip); [|done].
  cbn [fst root]. by rewrite (collect_children _ _ (root t)).
Qed.

(** On the way through a non-empty path, a search passes the records held
    at its end, all of them and in their stored order. *)
Lemma collect_through keys rest node :
  keys <> [] ->
  exists before,
    collect (keys ++ rest) node
    = before ++ recordsAt keys node
      ++ match nodeAt keys node with
         | Some n => collect rest n
         | None => []
         end.
Proof.
  intros Hne. destruct keys as [|k keys _] using rev_ind; [done|].
  exists (collect keys node).
  by rewrite collect_app, collect_snoc, <- app_assoc.
Qed.

Lemma recordsAt_app keys1 keys2 node n :
  nodeAt keys1 node = Some n ->
  recordsAt (keys1 ++ keys2) node = recordsAt keys2 n.
Proof. intros Hn. unfold recordsAt. by rewrite nodeAt_app, Hn. Qed.

Lemma recordsAt_elem_nodeAt record keys node :
  record ∈ recordsAt keys node -> is_Some (nodeAt keys node).
Proof.
  unfold recordsAt. destruct (nodeAt keys node); [eauto|].
  by intros ?%elem_of_nil.
Qed.

Lemma collect_two_levels keysA more rest node (A B : Data) :
  keysA <> [] -> more <> [] ->
  A ∈ recordsAt keysA node -> B ∈ recordsAt (keysA ++ more) node ->
  exists before between after,
    collect (keysA ++ more ++ rest) node = before ++ A :: between ++ B :: after.
Proof.
  intros HneA Hne HA HB.
  destruct (recordsAt_elem_nodeAt _ _ _ HA) as [nA HnA].
  rewrite (recordsAt_app _ _ _ _ HnA) in HB.
  destruct (collect_through keysA (more ++ rest) node HneA) as [xs ->].
  rewrite HnA.
  destruct (collect_through more rest nA Hne) as [ys ->].
  apply list_elem_of_split in HA as (a1 & a2 & ->).
  apply list_elem_of_split in HB as (b1 & b2 & ->).
  exists (xs ++ a1), (a2 ++ ys ++ b1).
  eexists. repeat (rewrite <- app_assoc || rewrite <- app_comm_cons).
  reflexivity.
Qed.

Lemma covers_split prefix bits :
  covers prefix bits -> (List.length prefix <= 32)%nat ->
  exists rest, bitPath bits 32 = prefix ++ rest.
Proof.
  unfold covers. intros Hcov Hlen.
  destruct (bitPath_prefix bits _ _ Hlen) as [rest Hrest].
  exists rest. by rewrite Hrest, Hcov.
Qed.

(** Containment, for an ancestor below the root: when block [A] is stored
    under a non-empty prefix that is a strict prefix of the one of block
    [B], every accepted address in [B]'s prefix gets both records, [A]'s
    before [B]'s. *)
Lemma ancestors_before_descendants ranges cidrA cidrB (A B : Data)
    prefixA prefixB ip bits :
  (cidrA, A) ∈ ranges -> (cidrB, B) ∈ ranges ->
  prefixOf cidrA = Some prefixA -> prefixOf cidrB = Some prefixB ->
  prefixA <> [] -> prefixA `prefix_of` prefixB -> prefixA <> prefixB ->
  ipToBinary ip = Ok bits -> covers prefixB bits ->
  exists before between after,
    searchAll ip (build ranges)
    = (Ok (before ++ A :: between ++ B :: after), build ranges).
Proof.
  intros HinA HinB HpA HpB HneA [more ->] Hstrict Hbits Hcov.
  assert (more <> []) as Hmore.
  { intros ->. by rewrite app_nil_r in Hstrict. }
  destruct (covers_split _ _ Hcov (prefixOf_length _ _ HpB)) as [rest Hrest].
  rewrite searchAll_run, Hbits, Hrest, <- app_assoc.
  destruct (collect_two_levels prefixA more rest (root (build ranges)) A B)
    as (before & between & after & ->); try done.
  - rewrite recordsAt_build. apply elem_of_recordsFor. eauto.
  - rewrite recordsAt_build. apply elem_of_recordsFor. eauto.
  - eauto.
Qed.

(** Multiplicity, below the root: the records given under one non-empty
    prefix, one for each accepted insert and in the order of the inserts,
    form one stretch of the result for every accepted address in that
    prefix. *)
Lemma same_prefix_in_insertion_order ranges cidr prefix ip bits :
  prefixOf cidr = Some prefix -> prefix <> [] ->
  ipToBinary ip = Ok bits -> covers prefix bits ->
  exists before after,
    searchAll ip (build ranges)
    = (Ok (before ++ recordsFor prefix ranges ++ after), build ranges).
Proof.
  intros Hp Hne Hbits Hcov.
  destruct (covers_split _ _ Hcov (prefixOf_length _ _ Hp)) as [rest Hrest].
  rewrite searchAll_run, Hbits, Hrest.
  destruct (collect_through prefix rest (root (build ranges)) Hne) as [xs ->].
  rewrite recordsAt_build. eauto.
Qed.

(** A search gathers, level by level from depth 1 to the depth it is given,
    the records held at the prefixes of its path. *)
Lemma collect_levels keys : forall node,
  collect keys node
  = List.concat (map (fun k => recordsAt (take k keys) node)
                   (seq 1 (List.length keys))).
Proof.
  induction keys as [|key keys IH] using rev_ind; intros node; [done|].
  rewrite collect_snoc, IH, length_app, Nat.add_comm. cbn [List.length Nat.add].
  rewrite seq_S, map_app, concat_app. cbn [map List.concat Nat.add].
  rewrite app_nil_r. f_equal.
  - f_equal. apply map_ext_in. intros k [_ Hk]%in_seq.
    by rewrite take_app_le by lia.
  - by rewrite take_ge by (rewrite length_app; simpl; lia).
Qed.

(** The whole of [searchAll] on a trie built by inserts: for each depth from
    1 to 32, in that order, the records of the accepted ranges whose prefix
    is the first bits of the address up to that depth, in insertion
    order.  Depth 0 is not among them. *)
Lemma searchAll_build ranges ip bits :
  ipToBinary ip = Ok bits ->
  searchAll ip (build ranges)
  = (Ok (List.concat
           (map (fun k => recordsFor (bitPath bits k) ranges) (seq 1 32))),
     build ranges).
Proof.
  intros Hbits. rewrite searchAll_run, Hbits, collect_levels, bitPath_length.
  f_equal. f_equal. f_equal. apply map_ext_in. intros k [_ Hk]%in_seq.
  rewrite take_bitPath, recordsAt_build. by rewrite Nat.min_l by lia.
Qed.

End BelowTheRoot.

(** ** The scenarios of the specification *)

Example multiplicity_24 :
  prefixOf "1.2.3.0/24" = Some (bitPath "000000010000001000000011" 24)
  /\ recordsFor (bitPath "000000010000001000000011" 24)
       [("1.2.3.0/24", "first"); ("1.2.3.0/24", "second");
        ("1.2.3.0/24", "first")]
     = ["first"; "second"; "first"]
  /\ fst (searchAll "1.2.3.77"
            (build [("1.2.3.0/24", "first"); ("1.2.3.0/24", "second");
                    ("1.2.3.0/24", "first")]))
     = Ok ["first"; "second"; "first"].
Proof. repeat split; vm_compute; reflexivity. Qed.

Example end_to_end :
  let ranges := [("1.11.0.0/16", "ISP-A"); ("1.11.0.0/33", "bad");
                 ("1.11.40.0/21", "LG")] in
  fst (searchAll "1.11.40.5" (build ranges)) = Ok ["ISP-A"; "LG"]
  /\ fst (searchAll "1.12.0.0" (build ranges)) = Ok []
  /\ fst (insert "1.11.0.0/33" "bad" (build ranges))
     = Throw (InvalidPrefixLength "1.11.0.0/33").
Proof. repeat split; vm_compute; reflexivity. Qed.

Example driver_defaults :
  findAllIpsInTrie
    [mkCidrRecord "1.11.0.0/16" "ISP-A" "4766" "KR" "";
     mkCidrRecord "1.11.40.0/21" "LG" "" "KR" "none";
     mkCidrRecord "1.11.0.0/33" "bad" "" "" ""] "1.11.40.5"
  = [mkCidrRecord "1.11.0.0/16" "ISP-A" "4766" "KR" "none";
     mkCidrRecord "1.11.40.0/21" "LG" "" "KR" "none"]
  /\ findAllIpsInTrie [mkCidrRecord "1.11.0.0/16" "ISP-A" "4766" "KR" ""] "1.11.40"
     = [].
Proof. split; vm_compute; reflexivity. Qed.

Example codec_edges :
  ipToBinary "1..2.3" = Ok "00000001000000000000001000000011"
  /\ ipToBinary "1.2.3.0x10" = Ok "00000001000000100000001100010000"
  /\ ipToBinary "1.2.3.256" = Throw (InvalidOctet "256")
  /\ ipToBinary "1.2.3.-1" = Throw (InvalidOctet "-1")
  /\ ipToBinary "1.2.3.a" = Throw (InvalidOctet "a")
  /\ ipToBinary "1.2.3" = Throw (InvalidIpFormat "1.2.3")
  /\ parseCIDR "1.2.3.4" = Throw (InvalidCidrFormat "1.2.3.4")
  /\ parseCIDR "1.2.3.4/" = Ok ("1.2.3.4", JS.Finite 0 0)
  /\ parseCIDR "1.2.3/8" = Throw (InvalidIpFormat "1.2.3").
Proof. repeat split; vm_compute; reflexivity. Qed.

(** ** What a search reports, what an insert adds *)

Section Reports.
Context {Data : Type}.
Implicit Types (node : TrieNode Data) (t : Trie Data) (keys : list string).
Implicit Types (record : Data) (ranges : list (string * Data)).

Lemma covers_prefix_of prefix bits :
  covers prefix bits /\ (List.length prefix <= 32)%nat
  <-> prefix `prefix_of` bitPath bits 32.
Proof.
  split.
  - intros [Hcov Hlen]. destruct (covers_split _ _ Hcov Hlen) as [rest ->].
    by apply prefix_app_r.
  - intros Hpre. by apply prefix_of_bitPath in Hpre.
Qed.

Lemma elem_of_levels record ranges bits :
  record ∈ List.concat
             (map (fun k => recordsFor (bitPath bits k) ranges) (seq 1 32))
  <-> exists cidr prefix,
        (cidr, record) ∈ ranges /\ prefixOf cidr = Some prefix
        /\ prefix <> [] /\ covers prefix bits.
Proof.
  rewrite list_elem_of_In, in_concat. split.
  - intros (level & (k & <- & [Hk1 Hk2]%in_seq)%in_map_iff & Hin).
    apply list_elem_of_In, elem_of_recordsFor in Hin as (cidr & Hin & Hp).
    exists cidr, (bitPath bits k). repeat split; try done.
    + intros Hnil. apply (f_equal List.length) in Hnil.
      rewrite bitPath_length in Hnil. simpl in Hnil. lia.
    + unfold covers. by rewrite bitPath_length.
  - intros (cidr & prefix & Hin & Hp & Hne & Hcov).
    exists (recordsFor prefix ranges). split.
    + apply in_map_iff. exists (List.length prefix). split.
      * by rewrite Hcov.
      * apply in_seq. pose proof (prefixOf_length _ _ Hp).
        destruct prefix; [done|simpl in *; lia].
    + apply list_elem_of_In, elem_of_recordsFor. eauto.
Qed.

Lemma collect_newTrieNode keys : collect keys (@newTrieNode Data) = [].
Proof. destruct keys; simpl; [done|]. by rewrite lookup_empty. Qed.

Lemma collect_insertPath_on keys record : forall rest node,
  keys <> [] ->
  exists before after,
    collect (keys ++ rest) node = before ++ after
    /\ collect (keys ++ rest) (insertPath keys record node)
       = before ++ record :: after.
Proof.
  induction keys as [|k keys IH]; intros rest node Hne; [done|].
  cbn [app collect insertPath children]. rewrite lookup_insert_eq.
  destruct keys as [|k2 keys].
  - cbn [insertPath data app].
    rewrite (collect_children rest _
               (default newTrieNode (children node !! k))) by done.
    destruct (children node !! k) as [child|]; cbn [from_option id].
    + exists (data child), (collect rest child).
      by rewrite <- app_assoc.
    + exists [], []. by rewrite collect_newTrieNode.
  - destruct (IH rest (default newTrieNode (children node !! k)))
      as (before & after & Hold & Hnew); [done|].
    rewrite Hnew. cbn [insertPath data].
    destruct (children node !! k) as [child|]; cbn [from_option id] in *.
    + exists (data child ++ before), after.
      rewrite Hold. by rewrite <- !app_assoc.
    + rewrite collect_newTrieNode in Hold.
      symmetry in Hold. apply app_eq_nil in Hold as [-> ->].
      exists [], []. done.
Qed.

Lemma collect_insertPath_off path keys record node :
  keys = [] \/ ~ keys `prefix_of` path ->
  collect path (insertPath keys record node) = collect path node.
Proof.
  intros Hoff. rewrite !collect_levels. f_equal.
  apply map_ext_in. intros k [Hk1 Hk2]%in_seq.
  rewrite recordsAt_insertPath. rewrite decide_False; [by rewrite app_nil_r|].
  intros <-. destruct Hoff as [Hnil|Hoff].
  - apply (f_equal List.length) in Hnil. rewrite length_take in Hnil.
    simpl in Hnil. lia.
  - apply Hoff, prefix_take.
Qed.

End Reports.

(** X1. On a trie built by the driver's inserts, a record is in the result
    of [searchAll] for an accepted address exactly when it was given with a
    range that [insert] accepts, whose prefix is not empty and is the
    leading bits of the address: no range that does not contain the
    address is reported, and of those that do only the ones of prefix
    length 0 are left out. *)
Theorem searchAll_reports_exactly {Data} (ranges : list (string * Data))
    ip bits record :
  ipToBinary ip = Ok bits ->
  exists results,
    searchAll ip (build ranges) = (Ok results, build ranges)
    /\ (record ∈ results <->
        exists cidr prefix,
          (cidr, record) ∈ ranges /\ prefixOf cidr = Some prefix
          /\ prefix <> [] /\ covers prefix bits).
Proof.
  intros Hbits. eexists. split; [by apply searchAll_build|].
  apply elem_of_levels.
Qed.

Lemma searchAll_reports_exactly_witness :
  exists results,
    searchAll "1.11.40.5"
      (build [("1.11.0.0/16", "ISP-A"); ("9.0.0.0/8", "other")])
    = (Ok results, build [("1.11.0.0/16", "ISP-A"); ("9.0.0.0/8", "other")])
    /\ ("other" ∈ results <->
        exists cidr prefix,
          (cidr, "other") ∈ [("1.11.0.0/16", "ISP-A"); ("9.0.0.0/8", "other")]
          /\ prefixOf cidr = Some prefix /\ prefix <> []
          /\ covers prefix "00000001000010110010100000000101").
Proof.
  apply (searchAll_reports_exactly
           [("1.11.0.0/16", "ISP-A"); ("9.0.0.0/8", "other")]
           "1.11.40.5" "00000001000010110010100000000101" "other").
  reflexivity.
Defined.

(** X2. One accepted [insert], on any trie: for an accepted address in its
    prefix, when that prefix is not empty, the result of [searchAll] gains
    the new record once, at one place, and keeps all it had in the same
    order; for every other accepted address, and for every address when the
    prefix is empty, the result is what it was. *)
Theorem insert_adds_one_result {Data} cidr (record : Data) t keys ip bits :
  prefixOf cidr = Some keys -> ipToBinary ip = Ok bits ->
  exists old new,
    fst (searchAll ip t) = Ok old
    /\ fst (searchAll ip (snd (insert cidr record t))) = Ok new
    /\ ((keys <> [] /\ covers keys bits
         /\ exists before after,
              old = before ++ after /\ new = before ++ record :: after)
        \/ ((keys = [] \/ ~ covers keys bits) /\ new = old)).
Proof.
  intros Hp Hbits. rewrite (insert_accepted _ _ _ _ Hp), !searchAll_run, Hbits.
  cbn [fst snd root]. do 2 eexists. split; [done|]. split; [done|].
  pose proof (prefixOf_length _ _ Hp) as Hlen.
  destruct (decide (keys = [])) as [->|Hne].
  { right. split; [by left|]. apply collect_insertPath_off. by left. }
  destruct (decide (keys `prefix_of` bitPath bits 32)) as [[rest Hon]|Hoff].
  - left. split; [done|]. split.
    { apply covers_prefix_of. rewrite Hon. by apply prefix_app_r. }
    rewrite Hon. by apply collect_insertPath_on.
  - right. split.
    + right. intros Hcov. apply Hoff. by apply covers_prefix_of.
    + apply collect_insertPath_off. by right.
Qed.

Lemma insert_adds_one_result_witness :
  exists old new,
    fst (searchAll "1.11.40.5" (build [("1.11.40.0/21", "LG")])) = Ok old
    /\ fst (searchAll "1.11.40.5"
              (snd (insert "1.11.0.0/16" "ISP-A"
                      (build [("1.11.40.0/21", "LG")])))) = Ok new
    /\ ((bitPath "0000000100001011" 16 <> []
         /\ covers (bitPath "0000000100001011" 16)
              "00000001000010110010100000000101"
         /\ exists before after,
              old = before ++ after /\ new = before ++ "ISP-A" :: after)
        \/ ((bitPath "0000000100001011" 16 = []
             \/ ~ covers (bitPath "0000000100001011" 16)
                    "00000001000010110010100000000101")
            /\ new = old)).
Proof.
  apply (insert_adds_one_result "1.11.0.0/16" "ISP-A"
           (build [("1.11.40.0/21", "LG")])
           (bitPath "0000000100001011" 16) "1.11.40.5"
           "00000001000010110010100000000101"); reflexivity.
Defined.

(** ** Order of inserts, shape of the trie *)

Section Shape.
Context {Data : Type}.
Implicit Types (node : TrieNode Data) (t : Trie Data) (keys : list string).
Implicit Types (record : Data) (ranges : list (string * Data)).

Lemma insertPath_commute keys1 record1 record2 : forall keys2 node,
  keys1 <> keys2 ->
  insertPath keys1 record1 (insertPath keys2 record2 node)
  = insertPath keys2 record2 (insertPath keys1 record1 node).
Proof.
  induction keys1 as [|k1 keys1 IH]; intros keys2 node Hne.
  - destruct keys2 as [|k2 keys2]; [done|]. reflexivity.
  - destruct keys2 as [|k2 keys2]; [reflexivity|].
    cbn [insertPath children data]. f_equal.
    destruct (decide (k1 = k2)) as [->|Hk].
    + rewrite !lookup_insert_eq, !insert_insert_eq. cbn [from_option id].
      f_equal. apply IH. congruence.
    + rewrite !lookup_insert_ne by done. by apply insert_insert_ne.
Qed.

Lemma insert_state cidr record t :
  snd (insert cidr record t)
  = match prefixOf cidr with
    | Some keys => mkTrie (insertPath keys record (root t))
    | None => t
    end.
Proof.
  destruct (prefixOf cidr) as [keys|] eqn:Hp.
  - by rewrite (insert_accepted _ _ _ _ Hp).
  - apply prefixOf_None in Hp as [e He]. by rewrite (insert_rejected _ _ _ _ He).
Qed.

Lemma insertEach_app ranges1 ranges2 : forall t,
  snd (insertEach (ranges1 ++ ranges2) t)
  = snd (insertEach ranges2 (snd (insertEach ranges1 t))).
Proof.
  induction ranges1 as [|[cidr record] ranges1 IH]; intros t; [done|].
  cbn [app]. by rewrite !insertEach_cons, IH.
Qed.

Lemma insertOrSkip_state cidr record t :
  snd (insertOrSkip cidr record t) = snd (insert cidr record t).
Proof. by rewrite insertOrSkip_run, insert_state. Qed.

Lemma nodeAt_insertEach path ranges : forall t,
  is_Some (nodeAt path (root (snd (insertEach ranges t))))
  <-> is_Some (nodeAt path (root t))
      \/ exists cidr record keys,
           (cidr, record) ∈ ranges /\ prefixOf cidr = Some keys
           /\ path `prefix_of` keys.
Proof.
  induction ranges as [|[cidr record] ranges IH]; intros t.
  - cbn [insertEach snd mret TrieM_ret]. split; [by left|].
    intros [?|(? & ? & ? & ?%elem_of_nil & _)]; done.
  - rewrite insertEach_cons, IH, insertOrSkip_state, insert_state.
    destruct (prefixOf cidr) as [keys|] eqn:Hp; cbn [root].
    + split.
      * intros [Hsome|(c & r & ks & Hin & Hks & Hpre)].
        -- destruct (decide (path `prefix_of` keys)) as [Hon|Hoff].
           ++ right. exists cidr, record, keys.
              split; [by apply elem_of_cons; left | done].
           ++ left. by rewrite nodeAt_insertPath_off in Hsome.
        -- right. exists c, r, ks. split; [by apply elem_of_cons; right | done].
      * intros [Hsome|(c & r & ks & [[= -> ->]|Hin]%elem_of_cons & Hks & Hpre)].
        -- left. by apply nodeAt_insertPath_keeps.
        -- left. apply nodeAt_insertPath_on. congruence.
        -- right. eauto 10.
    + split.
      * intros [Hsome|(c & r & ks & Hin & Hks & Hpre)]; [by left|].
        right. exists c, r, ks. split; [by apply elem_of_cons; right | done].
      * intros [Hsome|(c & r & ks & [[= -> ->]|Hin]%elem_of_cons & Hks & Hpre)].
        -- by left.
        -- congruence.
        -- right. eauto 10.
Qed.

End Shape.

(** X3. Two inserts under different prefixes can be made in either order:
    the trie is the same afterwards, and a rejected range changes nothing
    wherever it comes.  (Under the same prefix the order shows, in the
    order of the records of that node.) *)
Theorem insert_order_irrelevant {Data} cidr1 cidr2 (record1 record2 : Data) t :
  prefixOf cidr1 <> prefixOf cidr2 ->
  snd (insert cidr2 record2 (snd (insert cidr1 record1 t)))
  = snd (insert cidr1 record1 (snd (insert cidr2 record2 t))).
Proof.
  intros Hne. rewrite !insert_state.
  destruct (prefixOf cidr1) as [keys1|], (prefixOf cidr2) as [keys2|];
    try reflexivity.
  cbn [root]. f_equal. symmetry. apply insertPath_commute. congruence.
Qed.

Lemma insert_order_irrelevant_witness :
  snd (insert "1.11.40.0/21" "LG" (snd (insert "1.11.0.0/16" "ISP-A" newTrie)))
  = snd (insert "1.11.0.0/16" "ISP-A" (snd (insert "1.11.40.0/21" "LG" newTrie))).
Proof.
  apply (insert_order_irrelevant "1.11.0.0/16" "1.11.40.0/21" "ISP-A" "LG").
  vm_compute. discriminate.
Defined.

(** X4. The nodes of a trie built by the driver's inserts are the root and,
    for every accepted range, the nodes along the path of its prefix, and
    no other; none lies deeper than 32 levels. *)
Theorem build_nodes {Data} (ranges : list (string * Data)) path :
  (is_Some (nodeAt path (root (build ranges)))
   <-> path = []
       \/ exists cidr record keys,
            (cidr, record) ∈ ranges /\ prefixOf cidr = Some keys
            /\ path `prefix_of` keys)
  /\ (is_Some (nodeAt path (root (build ranges))) ->
      (List.length path <= 32)%nat).
Proof.
  assert (is_Some (nodeAt path (root (build ranges)))
          <-> path = []
              \/ exists cidr record keys,
                   (cidr, record) ∈ ranges /\ prefixOf cidr = Some keys
                   /\ path `prefix_of` keys) as Hiff.
  { unfold build. rewrite nodeAt_insertEach. cbn [newTrie root].
    rewrite nodeAt_newTrieNode. split.
    - intros [Hroot|Hpath]; [|by right]. left.
      by destruct (decide (path = [])); [|destruct Hroot].
    - intros [->|Hpath]; [left; by eexists | by right]. }
  split; [done|]. intros [->|(cidr & record & keys & _ & Hp & Hpre)]%Hiff.
  - simpl. lia.
  - pose proof (prefix_length _ _ Hpre). pose proof (prefixOf_length _ _ Hp). lia.
Qed.


(** ** More of the codec *)

Lemma allDigitsIn_allIn radix s :
  JS.allDigitsIn radix s = allIn (JS.isDigitIn radix) s.
Proof. induction s as [|c s IH]; simpl; [done|]. by rewrite IH. Qed.

Lemma allIn_impl (p q : ascii -> bool) s :
  (forall c, p c = true -> q c = true) -> allIn p s = true -> allIn q s = true.
Proof.
  intros Hpq. induction s as [|c s IH]; simpl; [done|].
  intros [Hc Hs]%andb_prop. by rewrite (Hpq c Hc), IH.
Qed.

Lemma allIn_app p s1 s2 : allIn p (s1 +:+ s2) = allIn p s1 && allIn p s2.
Proof. induction s1 as [|c s1 IH]; simpl; [done|]. by rewrite IH, andb_assoc. Qed.

Lemma split_no_sep sep s :
  allIn (fun c => negb (c =? sep)%char) s = true -> JS.split sep s = [s].
Proof.
  induction s as [|c s IH]; simpl; [done|].
  intros [Hc Hs]%andb_prop. apply negb_true_iff in Hc. by rewrite Hc, IH.
Qed.

Lemma split_app sep s1 s2 :
  allIn (fun c => negb (c =? sep)%char) s1 = true ->
  JS.split sep (s1 +:+ String sep s2) = s1 :: JS.split sep s2.
Proof.
  induction s1 as [|c s1 IH]; simpl.
  - intros _. by rewrite Ascii.eqb_refl.
  - intros [Hc Hs]%andb_prop. apply negb_true_iff in Hc. by rewrite Hc, IH.
Qed.

Lemma decimal_no_sep sep s :
  JS.isDecimalDigit sep = false -> JS.allDigitsIn 10 s = true ->
  allIn (fun c => negb (c =? sep)%char) s = true.
Proof.
  intros Hsep. rewrite allDigitsIn_allIn. apply allIn_impl.
  intros c Hc. apply negb_true_iff, Ascii.eqb_neq. intros ->.
  unfold JS.isDecimalDigit in Hsep. congruence.
Qed.

Lemma isOctetField_decimal s :
  isOctetField s = true -> JS.allDigitsIn 10 s = true.
Proof. by intros [[_ ?]%andb_prop _]%andb_prop. Qed.

Lemma split_dottedQuad a b c d :
  isOctetField a = true -> isOctetField b = true ->
  isOctetField c = true -> isOctetField d = true ->
  JS.split "." (dottedQuad a b c d) = [a; b; c; d]
  /\ allIn (fun ch => negb (ch =? "/")%char) (dottedQuad a b c d) = true.
Proof.
  intros Ha%isOctetField_decimal Hb%isOctetField_decimal
    Hc%isOctetField_decimal Hd%isOctetField_decimal.
  unfold dottedQuad. split.
  - rewrite (split_app "." a), (split_app "." b), (split_app "." c),
      (split_no_sep "." d); try (apply decimal_no_sep; done). done.
  - repeat (rewrite allIn_app; cbn [allIn]).
    rewrite (decimal_no_sep "/" a), (decimal_no_sep "/" b),
      (decimal_no_sep "/" c), (decimal_no_sep "/" d); done.
Qed.

Lemma ipToBinary_dottedQuad a b c d :
  isOctetField a = true -> isOctetField b = true ->
  isOctetField c = true -> isOctetField d = true ->
  ipToBinary (dottedQuad a b c d)
  = Ok (bin8 (octetValue a) +:+ bin8 (octetValue b)
        +:+ bin8 (octetValue c) +:+ bin8 (octetValue d)).
Proof.
  intros Ha Hb Hc Hd. unfold ipToBinary.
  rewrite (proj1 (split_dottedQuad a b c d Ha Hb Hc Hd)).
  cbn [List.length Nat.eqb negb mapResult].
  rewrite (octetToBinary_field _ Ha), (octetToBinary_field _ Hb),
    (octetToBinary_field _ Hc), (octetToBinary_field _ Hd).
  reflexivity.
Qed.

(** X5. A range written as four decimal fields between 0 and 255, a slash
    and a decimal prefix length between 0 and 32 is always accepted:
    [parseCIDR] returns the address text as written and the prefix length,
    the loop of [insert] runs that many times, and [insert] stores the
    record under the first that many bits of the four 8-bit numerals. *)
Theorem parseCIDR_wellformed a b c d p :
  isOctetField a = true -> isOctetField b = true ->
  isOctetField c = true -> isOctetField d = true ->
  isPrefixLengthField p = true ->
  let ip := dottedQuad a b c d in
  let cidr := ip +:+ String "/" p in
  let bits := bin8 (octetValue a) +:+ bin8 (octetValue b)
              +:+ bin8 (octetValue c) +:+ bin8 (octetValue d) in
  parseCIDR cidr = Ok (ip, JS.Number p)
  /\ loopCount (JS.Number p) = Z.to_nat (JS.digitsValue 10 p)
  /\ prefixOf cidr = Some (bitPath bits (Z.to_nat (JS.digitsValue 10 p)))
  /\ forall Data (record : Data) t,
       insert cidr record t
       = (Ok tt, mkTrie (insertPath
                           (bitPath bits (Z.to_nat (JS.digitsValue 10 p)))
                           record (root t))).
Proof.
  intros Ha Hb Hc Hd Hp ip cidr bits.
  apply andb_prop in Hp as [[Hne%negb_true_iff Hall]%andb_prop Hle%Z.leb_le].
  destruct (loopCount_decimal p Hne Hall Hle) as [Hrej Hcount].
  pose proof (ipToBinary_dottedQuad a b c d Ha Hb Hc Hd) as Hbits.
  fold ip bits in Hbits.
  assert (parseCIDR cidr = Ok (ip, JS.Number p)) as Hparse.
  { unfold parseCIDR, cidr.
    rewrite (split_app "/" ip p)
      by apply (split_dottedQuad a b c d Ha Hb Hc Hd).
    rewrite (split_no_sep "/" p) by (apply decimal_no_sep; done).
    fold (prefixLengthRejected p). rewrite Hrej, Hbits. reflexivity. }
  assert (prefixOf cidr
          = Some (bitPath bits (Z.to_nat (JS.digitsValue 10 p)))) as Hprefix.
  { unfold prefixOf. by rewrite Hparse, Hbits, Hcount. }
  repeat split; try done.
  intros Data record t. by apply insert_accepted.
Qed.

Lemma parseCIDR_wellformed_witness :
  parseCIDR "1.11.40.0/21" = Ok ("1.11.40.0", JS.Number "21")
  /\ loopCount (JS.Number "21") = 21%nat
  /\ prefixOf "1.11.40.0/21" = Some (bitPath "000000010000101100101" 21).
Proof.
  destruct (parseCIDR_wellformed "1" "11" "40" "0" "21"
              eq_refl eq_refl eq_refl eq_refl eq_refl)
    as (Hparse & Hcount & Hprefix & _).
  split; [exact Hparse|]. split; [exact Hcount | exact Hprefix].
Defined.

Lemma mapResult_first_Throw {A B} (f : A -> result B) before x after e :
  Forall (fun y => isOk (f y) = true) before -> f x = Throw e ->
  mapResult f (before ++ x :: after) = Throw e.
Proof.
  intros Hbefore Hx. induction Hbefore as [|y before Hy _ IH]; simpl.
  - by rewrite Hx.
  - unfold mbind, result_bind. destruct (f y); [|done].
    by rewrite IH.
Qed.

(** X6. When a string has four fields, [ipToBinary] throws on the first
    field, from the left, that trips the test of the callback, and the
    error carries that field; what comes after it is not looked at. *)
Theorem ipToBinary_first_offender ip before octet after :
  JS.split "." ip = before ++ octet :: after ->
  List.length (before ++ octet :: after) = 4%nat ->
  Forall (fun o => octetRejected o = false) before ->
  octetRejected octet = true ->
  ipToBinary ip = Throw (InvalidOctet octet).
Proof.
  intros Hsplit Hlen Hbefore Hoctet. unfold ipToBinary.
  rewrite Hsplit, Hlen. cbn [Nat.eqb negb].
  rewrite (mapResult_first_Throw octetToBinary before octet after
             (InvalidOctet octet)); [done| |].
  - eapply Forall_impl; [exact Hbefore|]. intros o Ho.
    by rewrite octetToBinary_unfold, Ho.
  - by rewrite octetToBinary_unfold, Hoctet.
Qed.

Lemma ipToBinary_first_offender_witness :
  JS.split "." "1.300.x.4" = ["1"] ++ "300" :: ["x"; "4"]
  /\ ipToBinary "1.300.x.4" = Throw (InvalidOctet "300").
Proof.
  split; [reflexivity|].
  apply (ipToBinary_first_offender "1.300.x.4" ["1"] "300" ["x"; "4"]);
    try reflexivity.
  repeat constructor.
Defined.









(** ** The driver *)

Lemma findAllIpsInTrie_run ipRanges ipToFind :
  findAllIpsInTrie ipRanges ipToFind
  = match ipToBinary ipToFind with
    | Ok bits =>
        List.concat
          (map (fun k => recordsFor (bitPath bits k) (map entryOf ipRanges))
             (seq 1 32))
    | Throw _ => []
    end.
Proof.
  unfold findAllIpsInTrie, mbind, TrieM_bind, tryCatch.
  pose proof (insertEach_ok (map entryOf ipRanges) newTrie) as Hok.
  destruct (insertEach (map entryOf ipRanges) newTrie) as [outcome t] eqn:Hrun.
  simpl in Hok. subst outcome.
  assert (t = build (map entryOf ipRanges)) as ->
    by (unfold build; by rewrite Hrun).
  destruct (ipToBinary ipToFind) as [bits|e] eqn:Hbits.
  - by rewrite (searchAll_build _ _ _ Hbits).
  - by rewrite searchAll_run, Hbits.
Qed.

Lemma build_skips {Data} (before after : list (string * Data)) cidr record :
  prefixOf cidr = None ->
  build (before ++ (cidr, record) :: after) = build (before ++ after).
Proof.
  intros Hp. unfold build.
  rewrite !insertEach_app, insertEach_cons, insertOrSkip_state, insert_state.
  by rewrite Hp.
Qed.

(** X8. What [findAllIpsInTrie] returns for an accepted address: a record
    is in the result exactly when it is the object built for one of the
    ranges given (the range with its status defaulted), the CIDR of that
    range is accepted, its prefix is not empty and the address lies in
    it. *)
Theorem findAllIpsInTrie_reports_exactly ipRanges ipToFind bits record :
  ipToBinary ipToFind = Ok bits ->
  record ∈ findAllIpsInTrie ipRanges ipToFind
  <-> exists rangeObj prefix,
        rangeObj ∈ ipRanges /\ record = snd (entryOf rangeObj)
        /\ prefixOf (ipRange rangeObj) = Some prefix
        /\ prefix <> [] /\ covers prefix bits.
Proof.
  intros Hbits. rewrite findAllIpsInTrie_run, Hbits, elem_of_levels. split.
  - intros (cidr & prefix & Hin & Hp & Hne & Hcov).
    apply list_elem_of_fmap in Hin as (rangeObj & Heq & Hin).
    exists rangeObj, prefix. rewrite <- Heq. cbn [snd].
    assert (cidr = ipRange rangeObj) as <- by (by injection Heq).
    done.
  - intros (rangeObj & prefix & Hin & -> & Hrest).
    exists (ipRange rangeObj), prefix. split; [|done].
    apply list_elem_of_fmap. exists rangeObj. by split.
Qed.

Lemma findAllIpsInTrie_reports_exactly_witness :
  mkCidrRecord "1.11.0.0/16" "ISP-A" "4766" "KR" "none"
    ∈ findAllIpsInTrie [mkCidrRecord "1.11.0.0/16" "ISP-A" "4766" "KR" ""]
        "1.11.40.5"
  <-> exists rangeObj prefix,
        rangeObj ∈ [mkCidrRecord "1.11.0.0/16" "ISP-A" "4766" "KR" ""]
        /\ mkCidrRecord "1.11.0.0/16" "ISP-A" "4766" "KR" "none"
           = snd (entryOf rangeObj)
        /\ prefixOf (ipRange rangeObj) = Some prefix
        /\ prefix <> []
        /\ covers prefix "00000001000010110010100000000101".
Proof.
  apply (findAllIpsInTrie_reports_exactly
           [mkCidrRecord "1.11.0.0/16" "ISP-A" "4766" "KR" ""] "1.11.40.5"
           "00000001000010110010100000000101").
  reflexivity.
Defined.

(** X9. Every record [findAllIpsInTrie] returns comes from one of the ranges
    given, with the same range, description, number and country, and with
    the status of that range, or [none] where that status is empty; so no
    returned record has an empty status. *)
Theorem findAllIpsInTrie_status ipRanges ipToFind record :
  record ∈ findAllIpsInTrie ipRanges ipToFind ->
  status record <> EmptyString
  /\ exists rangeObj,
       rangeObj ∈ ipRanges
       /\ ipRange record = ipRange rangeObj
       /\ description record = description rangeObj
       /\ number record = number rangeObj
       /\ country record = country rangeObj
       /\ status record = if JS.isEmpty (status rangeObj) then "none"
                          else status rangeObj.
Proof.
  rewrite findAllIpsInTrie_run.
  destruct (ipToBinary ipToFind) as [bits|]; [|by intros ?%elem_of_nil].
  intros (cidr & prefix & Hin & _)%elem_of_levels.
  apply list_elem_of_fmap in Hin as (rangeObj & Heq & Hin).
  unfold entryOf in Heq. injection Heq as -> ->. cbn [status ipRange
    description number country]. unfold orDefault. split.
  - by destruct (status rangeObj).
  - exists rangeObj. repeat split; try done.
    + by destruct (number rangeObj).
    + by destruct (country rangeObj).
Qed.

Lemma findAllIpsInTrie_status_witness :
  status (mkCidrRecord "1.11.0.0/16" "ISP-A" "4766" "KR" "none") <> EmptyString.
Proof.
  apply (findAllIpsInTrie_status
           [mkCidrRecord "1.11.0.0/16" "ISP-A" "4766" "KR" ""] "1.11.40.5"
           (mkCidrRecord "1.11.0.0/16" "ISP-A" "4766" "KR" "none")).
  vm_compute. apply list_elem_of_here.
Defined.

(** X10. [findAllIpsInTrie] does not tell a rejected query address from an
    address in no range: whenever [ipToBinary] throws on the address, the
    result is the empty array, whatever ranges were given. *)
Theorem findAllIpsInTrie_malformed_query ipRanges ipToFind e :
  ipToBinary ipToFind = Throw e -> findAllIpsInTrie ipRanges ipToFind = [].
Proof. intros He. by rewrite findAllIpsInTrie_run, He. Qed.

Lemma findAllIpsInTrie_malformed_query_witness :
  findAllIpsInTrie [mkCidrRecord "1.11.0.0/16" "ISP-A" "4766" "KR" ""] "1.11.40"
  = [].
Proof.
  apply (findAllIpsInTrie_malformed_query
           [mkCidrRecord "1.11.0.0/16" "ISP-A" "4766" "KR" ""] "1.11.40"
           (InvalidIpFormat "1.11.40")).
  reflexivity.
Defined.

(** X11. A range whose CIDR [parseCIDR] rejects is passed over by
    [findAllIpsInTrie]: the ranges before and after it are loaded all the
    same, and every result is what it is without that range. *)
Theorem findAllIpsInTrie_skips_rejected before rangeObj after ipToFind e :
  parseCIDR (ipRange rangeObj) = Throw e ->
  findAllIpsInTrie (before ++ rangeObj :: after) ipToFind
  = findAllIpsInTrie (before ++ after) ipToFind.
Proof.
  intros He.
  assert (prefixOf (ipRange rangeObj) = None) as Hp
    by (apply prefixOf_None; eauto).
  assert (build (map entryOf (before ++ rangeObj :: after))
          = build (map entryOf (before ++ after))) as Hbuild.
  { rewrite !map_app. cbn [map]. by apply build_skips. }
  unfold findAllIpsInTrie, mbind, TrieM_bind.
  pose proof (insertEach_ok (map entryOf (before ++ rangeObj :: after)) newTrie).
  pose proof (insertEach_ok (map entryOf (before ++ after)) newTrie).
  unfold build in Hbuild.
  destruct (insertEach (map entryOf (before ++ rangeObj :: after)) newTrie),
    (insertEach (map entryOf (before ++ after)) newTrie).
  simpl in *. by subst.
Qed.

Lemma findAllIpsInTrie_skips_rejected_witness :
  findAllIpsInTrie
    ([mkCidrRecord "1.11.0.0/16" "ISP-A" "4766" "KR" ""]
     ++ mkCidrRecord "1.11.0.0/33" "bad" "1" "KR" ""
     :: [mkCidrRecord "1.11.40.0/21" "LG" "18313" "KR" "none"]) "1.11.40.5"
  = findAllIpsInTrie
      ([mkCidrRecord "1.11.0.0/16" "ISP-A" "4766" "KR" ""]
       ++ [mkCidrRecord "1.11.40.0/21" "LG" "18313" "KR" "none"]) "1.11.40.5".
Proof.
  apply (findAllIpsInTrie_skips_rejected
           [mkCidrRecord "1.11.0.0/16" "ISP-A" "4766" "KR" ""]
           (mkCidrRecord "1.11.0.0/33" "bad" "1" "KR" "")
           [mkCidrRecord "1.11.40.0/21" "LG" "18313" "KR" "none"] "1.11.40.5"
           (InvalidPrefixLength "1.11.0.0/33")).
  reflexivity.
Defined.

(** ** The pattern of the rule lines *)

Lemma takeChars_dropChars k : forall s,
  Regex.takeChars k s +:+ Regex.dropChars k s = s.
Proof.
  induction k as [|k IH]; intros [|c s]; simpl; try done. by rewrite IH.
Qed.

Lemma takeChars_run class k : forall s,
  (k <= Regex.runLength class s)%nat ->
  allIn class (Regex.takeChars k s) = true
  /\ String.length (Regex.takeChars k s) = k.
Proof.
  induction k as [|k IH]; intros [|c s] Hk; simpl in *; try done; try lia.
  destruct (class c) eqn:Hc; [|lia].
  destruct (IH s) as [Hall Hlen]; [lia|]. by rewrite Hall, Hlen.
Qed.

Lemma greedy_sound rest capture min class s captures : forall k,
  (min <= k)%nat -> (k <= Regex.runLength class s)%nat ->
  Regex.greedy rest capture min k s = Some captures ->
  exists run s' captures',
    s = run +:+ s' /\ allIn class run = true
    /\ (min <= String.length run)%nat
    /\ rest s' = Some captures'
    /\ captures = if capture then run :: captures' else captures'.
Proof.
  induction k as [|k IH]; intros Hmin Hk; cbn [Regex.greedy].
  - destruct (rest (Regex.dropChars 0 s)) as [captures'|] eqn:Hrest;
      [|discriminate].
    intros [= <-]. exists EmptyString, s, captures'.
    assert (Regex.dropChars 0 s = s) as Hdrop by by destruct s.
    rewrite Hdrop in Hrest.
    repeat split; try done.
  - destruct (rest (Regex.dropChars (S k) s)) as [captures'|] eqn:Hrest.
    + intros [= <-].
      destruct (takeChars_run class (S k) s Hk) as [Hall Hlen].
      exists (Regex.takeChars (S k) s), (Regex.dropChars (S k) s), captures'.
      rewrite takeChars_dropChars, Hlen. by repeat split.
    + destruct (Nat.leb_spec min k) as [Hle|]; [|discriminate].
      apply IH; [done | lia].
Qed.

Lemma matchItems_sound items : forall s captures,
  Regex.matchItems items s = Some captures -> denotes items s captures.
Proof.
  induction items as [|[c|capture min class] items IH]; intros s captures;
    cbn [Regex.matchItems denotes].
  - destruct s; simpl; [|discriminate]. by intros [= <-].
  - destruct s as [|c' s]; [discriminate|].
    destruct (Ascii.eqb_spec c' c) as [->|]; [|discriminate].
    intros Hrest. exists s. split; [done | by apply IH].
  - destruct (Nat.leb_spec min (Regex.runLength class s)) as [Hmin|];
      [|discriminate].
    intros Hgreedy.
    destruct (greedy_sound _ _ _ class _ _ _ Hmin (Nat.le_refl _) Hgreedy)
      as (run & s' & captures' & Hs & Hall & Hlen & Hrest & Hcaps).
    exists run, s', captures'. repeat split; try done. by apply IH.
Qed.

Lemma length_pos_nonempty s : (1 <= String.length s)%nat -> JS.isEmpty s = false.
Proof. destruct s; simpl; [lia | done]. Qed.

(** X12. An entry that [parseLine] reads spells its line: the line is the
    range, a comma, blanks, the description in double quotes, a comma,
    blanks, the number, a comma, blanks, the country in double quotes, a
    comma, blanks and the status, each run of blanks non-empty.  The range
    is non-empty and has no blank in it, the description and the country are
    non-empty and have no double quote, the number is a non-empty run of
    decimal digits, and the status has neither a carriage return nor a line
    feed. *)
Theorem parseLine_spells line entry :
  parseLine line = Some entry ->
  (exists w1 w2 w3 w4,
      line = ipRange entry +:+ String "," (w1 +:+ String Regex.quote
               (description entry +:+ String Regex.quote (String ","
               (w2 +:+ number entry +:+ String "," (w3 +:+ String Regex.quote
               (country entry +:+ String Regex.quote (String ","
               (w4 +:+ status entry))))))))
      /\ Forall (fun w => JS.isEmpty w = false
                          /\ allIn Regex.space w = true) [w1; w2; w3; w4])
  /\ JS.isEmpty (ipRange entry) = false
  /\ allIn Regex.nonSpace (ipRange entry) = true
  /\ JS.isEmpty (description entry) = false
  /\ allIn Regex.notQuote (description entry) = true
  /\ JS.isEmpty (number entry) = false
  /\ allIn Regex.digit (number entry) = true
  /\ JS.isEmpty (country entry) = false
  /\ allIn Regex.notQuote (country entry) = true
  /\ allIn Regex.dot (status entry) = true.
Proof.
  unfold parseLine. destruct (_ || _); [discriminate|].
  destruct (Regex.matchItems lineRegex line) as [captures|] eqn:Hmatch;
    [|discriminate].
  apply matchItems_sound in Hmatch. unfold lineRegex in Hmatch.
  cbn [denotes] in Hmatch.
  destruct Hmatch as (g1 & s1 & c1 & -> & Hg1 & Hn1 & Hmatch & ->).
  destruct Hmatch as (s2 & -> & Hmatch).
  destruct Hmatch as (w1 & s3 & c3 & -> & Hw1 & Hm1 & Hmatch & ->).
  destruct Hmatch as (s4 & -> & Hmatch).
  destruct Hmatch as (g2 & s5 & c5 & -> & Hg2 & Hn2 & Hmatch & ->).
  destruct Hmatch as (s6 & -> & s7 & -> & Hmatch).
  destruct Hmatch as (w2 & s8 & c8 & -> & Hw2 & Hm2 & Hmatch & ->).
  destruct Hmatch as (g3 & s9 & c9 & -> & Hg3 & Hn3 & Hmatch & ->).
  destruct Hmatch as (s10 & -> & Hmatch).
  destruct Hmatch as (w3 & s11 & c11 & -> & Hw3 & Hm3 & Hmatch & ->).
  destruct Hmatch as (s12 & -> & Hmatch).
  destruct Hmatch as (g4 & s13 & c13 & -> & Hg4 & Hn4 & Hmatch & ->).
  destruct Hmatch as (s14 & -> & s15 & -> & Hmatch).
  destruct Hmatch as (w4 & s16 & c16 & -> & Hw4 & Hm4 & Hmatch & ->).
  destruct Hmatch as (g5 & s17 & c17 & -> & Hg5 & _ & [-> ->] & ->).
  intros [= <-]. cbn [ipRange description number country status].
  rewrite append_empty_r.
  split; [exists w1, w2, w3, w4; split; [done|]|].
  - repeat constructor; try done; by apply length_pos_nonempty.
  - repeat split; try done; by apply length_pos_nonempty.
Qed.

Lemma parseLine_spells_witness :
  parseLine
    ("1.0.0.0/24, " +:+ String Regex.quote ("Cloudflare" +:+ String Regex.quote
       (", 13335, " +:+ String Regex.quote ("AU" +:+ String Regex.quote
          ", none"))))
  = Some (mkCidrRecord "1.0.0.0/24" "Cloudflare" "13335" "AU" "none")
  /\ allIn Regex.digit "13335" = true.
Proof.
  split; [reflexivity|].
  apply (parseLine_spells
           ("1.0.0.0/24, " +:+ String Regex.quote
              ("Cloudflare" +:+ String Regex.quote
                 (", 13335, " +:+ String Regex.quote
                    ("AU" +:+ String Regex.quote ", none"))))
           (mkCidrRecord "1.0.0.0/24" "Cloudflare" "13335" "AU" "none")).
  reflexivity.
Defined.

Lemma parseLine_denotes line entry :
  parseLine line = Some entry ->
  denotes lineRegex line
    [ipRange entry; description entry; number entry; country entry;
     status entry].
Proof.
  unfold parseLine. destruct (_ || _); [discriminate|].
  destruct (Regex.matchItems lineRegex line) as [captures|] eqn:Hmatch;
    [|discriminate].
  apply matchItems_sound in Hmatch.
  destruct captures as [|g1 [|g2 [|g3 [|g4 [|g5 [|]]]]]]; try discriminate.
  by intros [= <-].
Qed.

(** The capture of a last item that is a captured repetition is the end of
    the string. *)
Lemma denotes_last items min class : forall s captures,
  denotes (items ++ [Regex.Rep true min class]) s captures ->
  exists front run,
    s = front +:+ run /\ last captures = Some run /\ allIn class run = true.
Proof.
  induction items as [|[c|capture min' class'] items IH]; intros s captures;
    cbn [app denotes].
  - intros (run & s' & captures' & -> & Hall & _ & [-> ->] & ->).
    exists EmptyString, run. by rewrite append_empty_r.
  - intros (s' & -> & Hrest). destruct (IH _ _ Hrest) as (front & run & -> & ?).
    by exists (String c front), run.
  - intros (run' & s' & captures' & -> & _ & _ & Hrest & ->).
    destruct (IH _ _ Hrest) as (front & run & -> & Hlast & Hall).
    exists (run' +:+ front), run. split; [|split; [|done]].
    + clear. induction run' as [|c r IHr]; simpl; [done|]. by rewrite IHr.
    + destruct capture; [|done]. destruct captures'; [done|]. done.
Qed.

Lemma append_snoc_inv s c : forall front run,
  s +:+ String c EmptyString = front +:+ run ->
  run = EmptyString \/ exists run', run = run' +:+ String c EmptyString.
Proof.
  induction s as [|a s IH]; intros front run; simpl.
  - destruct front as [|b front]; simpl.
    + intros <-. right. by exists EmptyString.
    + intros [= _ Hrest]. destruct front, run; try discriminate. by left.
  - destruct front as [|b front]; simpl.
    + intros <-. right. by exists (String a s).
    + intros [= _ Hrest]. by apply (IH front).
Qed.

(** X13. A line that ends in a carriage return, as every line of a file
    with CR LF line ends does after the split on line feeds, is read by
    [parseLine] only with an empty status: the last capture cannot take the
    carriage return, so it is empty and the carriage return is the end of
    the blanks before it. *)
Theorem parseLine_carriage_return line entry :
  parseLine (line +:+ String "013" EmptyString) = Some entry ->
  status entry = EmptyString.
Proof.
  intros Hdenotes%parseLine_denotes.
  apply (denotes_last (removelast lineRegex) 0 Regex.dot) in Hdenotes
    as (front & run & Hline & [= <-] & Hall).
  apply append_snoc_inv in Hline as [Hrun|[run' Hrun]]; [done|].
  rewrite Hrun, allIn_app in Hall. simpl in Hall. by rewrite andb_false_r in Hall.
Qed.

Lemma parseLine_carriage_return_witness :
  parseLine
    (("1.0.0.0/24, " +:+ String Regex.quote ("Cloudflare" +:+ String Regex.quote
        (", 13335, " +:+ String Regex.quote ("AU" +:+ String Regex.quote
           ","))))
     +:+ String "013" EmptyString)
  = Some (mkCidrRecord "1.0.0.0/24" "Cloudflare" "13335" "AU" "")
  /\ status (mkCidrRecord "1.0.0.0/24" "Cloudflare" "13335" "AU" "")
     = EmptyString.
Proof.
  split; [reflexivity|].
  apply (parseLine_carriage_return
           ("1.0.0.0/24, " +:+ String Regex.quote
              ("Cloudflare" +:+ String Regex.quote
                 (", 13335, " +:+ String Regex.quote
                    ("AU" +:+ String Regex.quote ","))))
           (mkCidrRecord "1.0.0.0/24" "Cloudflare" "13335" "AU" "")).
  reflexivity.
Defined.

(** ** Writing a rule and reading it back *)

Lemma runLength_app class run s' :
  allIn class run = true -> headIs class s' = false ->
  Regex.runLength class (run +:+ s') = String.length run.
Proof.
  intros Hrun Hhead. induction run as [|c run IH].
  - destruct s' as [|c s']; [done|]. simpl in *. by rewrite Hhead.
  - cbn [allIn] in Hrun. apply andb_prop in Hrun as [Hc Hrun].
    cbn [String.append Regex.runLength String.length]. by rewrite Hc, IH.
Qed.

Lemma takeChars_app run s' :
  Regex.takeChars (String.length run) (run +:+ s') = run.
Proof.
  induction run as [|c run IH]; simpl; [by destruct s'|]. by rewrite IH.
Qed.

Lemma dropChars_app run s' :
  Regex.dropChars (String.length run) (run +:+ s') = s'.
Proof. induction run as [|c run IH]; simpl; [by destruct s'|]. done. Qed.

Lemma greedy_hit rest capture min k s captures :
  rest (Regex.dropChars k s) = Some captures ->
  Regex.greedy rest capture min k s
  = Some (if capture then Regex.takeChars k s :: captures else captures).
Proof. intros Hrest. destruct k; cbn [Regex.greedy]; by rewrite Hrest. Qed.

Lemma greedy_miss rest capture min k s :
  rest (Regex.dropChars (S k) s) = None -> (min <= k)%nat ->
  Regex.greedy rest capture min (S k) s = Regex.greedy rest capture min k s.
Proof.
  intros Hrest Hmin. cbn [Regex.greedy]. rewrite Hrest.
  by rewrite (proj2 (Nat.leb_le min k)).
Qed.

(** A repetition followed by something its class does not take keeps its
    whole run. *)
Lemma matchItems_Rep_max capture min class rest run s' captures :
  allIn class run = true -> (min <= String.length run)%nat ->
  headIs class s' = false ->
  Regex.matchItems rest s' = Some captures ->
  Regex.matchItems (Regex.Rep capture min class :: rest) (run +:+ s')
  = Some (if capture then run :: captures else captures).
Proof.
  intros Hrun Hmin Hhead Hrest. cbn [Regex.matchItems].
  rewrite (runLength_app _ _ _ Hrun Hhead).
  rewrite (proj2 (Nat.leb_le _ _)) by done.
  rewrite (greedy_hit _ _ _ _ _ captures); [by rewrite takeChars_app|].
  by rewrite dropChars_app.
Qed.

(** A repetition whose class takes the literal that follows it gives that
    one character back. *)
Lemma matchItems_Rep_giveback capture min class c rest run s' captures :
  class c = true -> allIn class run = true -> (min <= String.length run)%nat ->
  headIs class s' = false -> headIs (fun x => (x =? c)%char) s' = false ->
  Regex.matchItems rest s' = Some captures ->
  Regex.matchItems (Regex.Rep capture min class :: Regex.Lit c :: rest)
    (run +:+ String c s')
  = Some (if capture then run :: captures else captures).
Proof.
  intros Hc Hrun Hmin Hhead Hlit Hrest.
  assert (run +:+ String c s' = (run +:+ String c EmptyString) +:+ s') as Hsnoc.
  { clear. induction run as [|a run IH]; simpl; [done|]. by rewrite IH. }
  assert (String.length (run +:+ String c EmptyString)
          = S (String.length run)) as Hlen.
  { rewrite length_append. simpl. lia. }
  assert (Regex.runLength class (run +:+ String c s')
          = S (String.length run)) as Hrl.
  { rewrite Hsnoc, runLength_app, Hlen; [done| |done].
    rewrite allIn_app, Hrun. simpl. by rewrite Hc. }
  assert (Regex.dropChars (S (String.length run)) (run +:+ String c s') = s')
    as Hdrop1 by (by rewrite Hsnoc, <- Hlen, dropChars_app).
  assert (Regex.matchItems (Regex.Lit c :: rest) s' = None) as Hmiss.
  { destruct s' as [|a s']; [done|]. simpl in Hlit. cbn [Regex.matchItems].
    by rewrite Hlit. }
  cbn [Regex.matchItems]. rewrite Hrl.
  rewrite (proj2 (Nat.leb_le min (S (String.length run)))) by lia.
  rewrite greedy_miss by (by rewrite ?Hdrop1).
  rewrite (greedy_hit _ _ _ _ _ captures); [by rewrite takeChars_app|].
  rewrite dropChars_app. cbn [Regex.matchItems]. by rewrite Ascii.eqb_refl.
Qed.

Lemma headIs_app class s x :
  JS.isEmpty s = false -> headIs class (s +:+ x) = headIs class s.
Proof. by destruct s. Qed.

Lemma headIs_allIn (p q : ascii -> bool) s :
  (forall c, p c = true -> q c = false) ->
  allIn p s = true -> headIs q s = false.
Proof.
  intros Hpq. destruct s as [|c s]; simpl; [done|].
  intros [Hc _]%andb_prop. by apply Hpq.
Qed.

Lemma digit_not_space c : Regex.digit c = true -> Regex.space c = false.
Proof. intros Hc. by destruct (decimal_digit_plain c Hc) as [? _]. Qed.

Lemma append_assoc s1 s2 s3 : (s1 +:+ s2) +:+ s3 = s1 +:+ (s2 +:+ s3).
Proof. induction s1 as [|c s1 IH]; simpl; [done|]. by rewrite IH. Qed.

Lemma trim_head c s :
  Regex.space c = false -> exists t, JS.trim (String c s) = String c t.
Proof.
  intros Hc. unfold JS.trim. cbn [JS.trimStart].
  unfold Regex.space in Hc. rewrite Hc. cbn [JS.trimEnd]. rewrite Hc.
  destruct (JS.trimEnd s); eauto.
Qed.

Lemma matchItems_Lit c rest s :
  Regex.matchItems (Regex.Lit c :: rest) (String c s) = Regex.matchItems rest s.
Proof. cbn [Regex.matchItems]. by rewrite Ascii.eqb_refl. Qed.

Lemma matchItems_formatLine entry :
  writable entry = true ->
  Regex.matchItems lineRegex (formatLine entry)
  = Some [ipRange entry; description entry; number entry; country entry;
          status entry].
Proof.
  unfold writable. intros Hw.
  repeat (apply andb_prop in Hw as [Hw ?]).
  repeat match goal with
         | H : negb _ = true |- _ => apply negb_true_iff in H
         end.
  destruct entry as [range desc num ctry stat]. cbn [ipRange description
    number country status] in *.
  assert (formatLine (mkCidrRecord range desc num ctry stat)
          = range +:+ String "," (" " +:+ String Regex.quote
              (desc +:+ String Regex.quote (String "," (" " +:+
              (num +:+ String "," (" " +:+ String Regex.quote
              (ctry +:+ String Regex.quote (String "," (" " +:+
              (stat +:+ EmptyString))))))))))) as ->.
  { unfold formatLine. cbn [ipRange description number country status].
    rewrite append_empty_r. simpl. by rewrite ?append_assoc. }
  unfold lineRegex.
  erewrite matchItems_Rep_giveback; [reflexivity|done|done| |done|done|].
  { destruct range; [done | simpl; lia]. }
  erewrite (matchItems_Rep_max false 1 Regex.space _ " ");
    [reflexivity|done|simpl; lia|done|].
  rewrite matchItems_Lit.
  erewrite (matchItems_Rep_max true 1 Regex.notQuote _ desc);
    [reflexivity|done| |done|].
  { destruct desc; [done | simpl; lia]. }
  rewrite !matchItems_Lit.
  erewrite (matchItems_Rep_max false 1 Regex.space _ " ");
    [reflexivity|done|simpl; lia| |].
  { rewrite headIs_app by done.
    eapply headIs_allIn; [apply digit_not_space | done]. }
  erewrite (matchItems_Rep_max true 1 Regex.digit _ num);
    [reflexivity|done| |done|].
  { destruct num; [done | simpl; lia]. }
  rewrite matchItems_Lit.
  erewrite (matchItems_Rep_max false 1 Regex.space _ " ");
    [reflexivity|done|simpl; lia|done|].
  rewrite matchItems_Lit.
  erewrite (matchItems_Rep_max true 1 Regex.notQuote _ ctry);
    [reflexivity|done| |done|].
  { destruct ctry; [done | simpl; lia]. }
  rewrite !matchItems_Lit.
  erewrite (matchItems_Rep_max false 1 Regex.space _ " ");
    [reflexivity|done|simpl; lia| |].
  { by rewrite append_empty_r. }
  erewrite (matchItems_Rep_max true 0 Regex.dot _ stat);
    [reflexivity|done|lia|done|done].
Qed.

Lemma writable_range entry :
  writable entry = true ->
  exists c range,
    ipRange entry = String c range /\ Regex.space c = false /\ c <> "#"%char.
Proof.
  unfold writable. rewrite !andb_true_iff, !negb_true_iff.
  intros [[[[[[[[[[Hne Hall] Hhash] _] _] _] _] _] _] _] _].
  destruct (ipRange entry) as [|c range]; [done|]. exists c, range.
  simpl in Hall, Hhash. apply andb_prop in Hall as [Hc _].
  split; [done|]. split; [by apply negb_true_iff in Hc|].
  by apply Ascii.eqb_neq.
Qed.

Lemma formatLine_not_skipped entry :
  writable entry = true ->
  JS.isEmpty (JS.trim (formatLine entry))
  || String.prefix separator (JS.trim (formatLine entry)) = false.
Proof.
  intros Hw.
  destruct (writable_range _ Hw) as (c & range & Hrange & Hc & Hhash).
  destruct entry as [range' desc num ctry stat]. cbn [ipRange] in Hrange.
  subst range'. unfold formatLine. cbn [ipRange String.append].
  cbn [description number country status].
  match goal with
  | |- context [JS.trim (String c ?rest)] =>
      destruct (trim_head c rest Hc) as [t Ht]
  end.
  rewrite Ht.
  cbn [JS.isEmpty orb String.prefix separator].
  destruct (ascii_dec "#" c) as [<-|_]; [done|]. reflexivity.
Qed.

(** X14. A rule written the way the configuration file writes it is read
    back as it was: for an entry whose range is non-empty, has no blank and
    does not start with a hash sign, whose description and country are
    non-empty and free of double quotes, whose number is a non-empty run of
    decimal digits and whose status has no line break and does not start
    with a blank, [parseLine] of the written line is that entry. *)
Theorem parseLine_formatLine entry :
  writable entry = true -> parseLine (formatLine entry) = Some entry.
Proof.
  intros Hw. unfold parseLine.
  rewrite (formatLine_not_skipped _ Hw), (matchItems_formatLine _ Hw).
  by destruct entry.
Qed.

Lemma parseLine_formatLine_witness :
  writable (mkCidrRecord "1.0.0.0/24" "Cloudflare" "13335" "AU" "none") = true
  /\ parseLine
       (formatLine (mkCidrRecord "1.0.0.0/24" "Cloudflare" "13335" "AU" "none"))
     = Some (mkCidrRecord "1.0.0.0/24" "Cloudflare" "13335" "AU" "none").
Proof.
  split; [reflexivity|].
  apply (parseLine_formatLine
           (mkCidrRecord "1.0.0.0/24" "Cloudflare" "13335" "AU" "none")).
  reflexivity.
Defined.

(** ** The configuration file *)

Lemma split_joinLines lines :
  lines <> [] -> Forall (fun line => noLineFeed line = true) lines ->
  JS.split "010" (joinLines lines) = lines.
Proof.
  intros Hne Hall. induction Hall as [|line rest Hline Hrest IH]; [done|].
  destruct rest as [|next rest].
  - by apply split_no_sep.
  - change (joinLines (line :: next :: rest))
      with (line +:+ String "010" (joinLines (next :: rest))).
    rewrite split_app by done. by rewrite IH.
Qed.

Lemma findIndex_app {A} (p : A -> bool) before x after :
  Forall (fun y => p y = false) before -> p x = true ->
  findIndex p (before ++ x :: after) = Some (List.length before).
Proof.
  intros Hbefore Hx. induction Hbefore as [|y before Hy _ IH]; simpl.
  - by rewrite Hx.
  - by rewrite Hy, IH.
Qed.

Lemma findIndex_none {A} (p : A -> bool) xs :
  Forall (fun y => p y = false) xs -> findIndex p xs = None.
Proof.
  intros Hxs. induction Hxs as [|y xs Hy _ IH]; simpl; [done|].
  by rewrite Hy, IH.
Qed.

Lemma filterNonNull_map {A B} (f : A -> option B) xs :
  filterNonNull (map f xs) = omap f xs.
Proof.
  unfold filterNonNull. induction xs as [|x xs IH]; [done|].
  cbn [map]. change (omap id (f x :: map f xs))
    with (match f x with
          | Some y => y :: omap id (map f xs)
          | None => omap id (map f xs)
          end).
  rewrite IH. reflexivity.
Qed.

Lemma readCfgFile_data readFile filePath data :
  readFile filePath = Some data ->
  readCfgFile readFile filePath
  = match findIndex isSeparatorLine (JS.split "010" data) with
    | Some i => omap parseLine (drop (i + 1) (JS.split "010" data))
    | None => []
    end.
Proof.
  intros Hread. unfold readCfgFile. rewrite Hread. cbv zeta.
  fold isSeparatorLine.
  destruct (findIndex isSeparatorLine (JS.split "010" data)); [|done].
  apply filterNonNull_map.
Qed.

Lemma drop_after {A} (before : list A) x after :
  drop (List.length before + 1) (before ++ x :: after) = after.
Proof.
  rewrite Nat.add_comm. cbn [Nat.add].
  induction before as [|y before IH]; simpl; [done|]. exact IH.
Qed.

(** X15. A file whose lines are a header with no separator line, then a
    separator line (the run of 26 hash signs, blanks around it allowed),
    then rules: [readCfgFile] returns the entries of the rules that
    [parseLine] reads, in the order of the file.  Whatever stands before
    the first separator line has no part in the result. *)
Theorem readCfgFile_after_separator readFile filePath header separatorLine rules :
  readFile filePath = Some (joinLines (header ++ separatorLine :: rules)) ->
  Forall (fun line => noLineFeed line = true)
    (header ++ separatorLine :: rules) ->
  Forall (fun line => isSeparatorLine line = false) header ->
  isSeparatorLine separatorLine = true ->
  readCfgFile readFile filePath = omap parseLine rules.
Proof.
  intros Hread Hlines Hheader Hsep.
  rewrite (readCfgFile_data _ _ _ Hread).
  rewrite split_joinLines; [|by destruct header|done].
  rewrite (findIndex_app _ _ _ _ Hheader Hsep).
  by rewrite drop_after.
Qed.

Lemma readCfgFile_after_separator_witness :
  readCfgFile
    (fun _ =>
       Some (joinLines
               (["[rules]";
                 formatLine (mkCidrRecord "10.0.0.0/8" "Private-Ip" "0" "ZZ" "none")]
                ++ "  ##########################"
                :: [formatLine (mkCidrRecord "1.0.0.0/24" "Cloudflare" "13335"
                                  "AU" "none");
                    ""; "not a rule"])))
    "ita-finalv12.cfg"
  = [mkCidrRecord "1.0.0.0/24" "Cloudflare" "13335" "AU" "none"].
Proof.
  apply (readCfgFile_after_separator _ "ita-finalv12.cfg"
           ["[rules]";
            formatLine (mkCidrRecord "10.0.0.0/8" "Private-Ip" "0" "ZZ" "none")]
           "  ##########################"
           [formatLine (mkCidrRecord "1.0.0.0/24" "Cloudflare" "13335"
                          "AU" "none");
            ""; "not a rule"]).
  - reflexivity.
  - repeat constructor.
  - repeat constructor.
  - reflexivity.
Defined.

(** X16. When the file cannot be read, or has no separator line,
    [readCfgFile] returns the empty array, and [findAllIpsInTrie] on it
    finds nothing for any address. *)
Theorem readCfgFile_nothing readFile filePath :
  readFile filePath = None
  \/ (exists data,
        readFile filePath = Some data
        /\ Forall (fun line => isSeparatorLine line = false)
             (JS.split "010" data)) ->
  readCfgFile readFile filePath = []
  /\ forall ipToFind,
       findAllIpsInTrie (readCfgFile readFile filePath) ipToFind = [].
Proof.
  intros Hcase.
  assert (readCfgFile readFile filePath = []) as ->.
  { destruct Hcase as [Hnone|(data & Hread & Hlines)].
    - unfold readCfgFile. by rewrite Hnone.
    - rewrite (readCfgFile_data _ _ _ Hread). by rewrite findIndex_none. }
  split; [done|]. intros ipToFind. rewrite findAllIpsInTrie_run.
  destruct (ipToBinary ipToFind); [|done].
  apply elem_of_nil_inv. intros record (level & Hlevel & Hin)%list_elem_of_In%in_concat.
  apply in_map_iff in Hlevel as (k & <- & _). destruct Hin.
Qed.

Lemma readCfgFile_nothing_witness :
  readCfgFile (fun _ => Some "1.0.0.0/24, x") "ita-finalv12.cfg" = []
  /\ forall ipToFind,
       findAllIpsInTrie
         (readCfgFile (fun _ => Some "1.0.0.0/24, x") "ita-finalv12.cfg")
         ipToFind = [].
Proof.
  apply (readCfgFile_nothing (fun _ => Some "1.0.0.0/24, x") "ita-finalv12.cfg").
  right. exists "1.0.0.0/24, x". split; [reflexivity|].
  repeat constructor.
Defined.

(** X17. Writing and reading a configuration: after any header without a
    separator line, then the separator, the rules written by [formatLine]
    for entries it writes readably are read back by [readCfgFile] as those
    entries, in the same order. *)
Theorem readCfgFile_written readFile filePath header entries :
  readFile filePath
  = Some (joinLines (header ++ separator :: map formatLine entries)) ->
  Forall (fun line => noLineFeed line = true) header ->
  Forall (fun line => isSeparatorLine line = false) header ->
  Forall (fun entry => writable entry = true
                       /\ noLineFeed (formatLine entry) = true) entries ->
  readCfgFile readFile filePath = entries.
Proof.
  intros Hread Hheader Hnosep Hentries.
  rewrite (readCfgFile_data _ _ _ Hread).
  rewrite split_joinLines; [|by destruct header|].
  - rewrite (findIndex_app isSeparatorLine header separator _ Hnosep eq_refl),
      drop_after.
    clear Hread. induction Hentries as [|entry entries [Hw _] _ IH]; [done|].
    cbn [map omap list_omap]. rewrite IH. unfold parseLine.
    rewrite (formatLine_not_skipped _ Hw), (matchItems_formatLine _ Hw).
    by destruct entry.
  - apply Forall_app. split; [done|]. constructor; [done|].
    apply Forall_map. eapply Forall_impl; [exact Hentries|].
    by intros entry [_ ?].
Qed.

Lemma readCfgFile_written_witness :
  readCfgFile
    (fun _ =>
       Some (joinLines
               (["[rules]"] ++ separator
                :: map formatLine
                     [mkCidrRecord "1.0.0.0/24" "Cloudflare" "13335" "AU" "none";
                      mkCidrRecord "1.11.40.0/21" "LG" "18313" "KR" ""])))
    "ita-finalv12.cfg"
  = [mkCidrRecord "1.0.0.0/24" "Cloudflare" "13335" "AU" "none";
     mkCidrRecord "1.11.40.0/21" "LG" "18313" "KR" ""].
Proof.
  apply (readCfgFile_written _ "ita-finalv12.cfg" ["[rules]"]
           [mkCidrRecord "1.0.0.0/24" "Cloudflare" "13335" "AU" "none";
            mkCidrRecord "1.11.40.0/21" "LG" "18313" "KR" ""]).
  - reflexivity.
  - repeat constructor.
  - repeat constructor.
  - repeat constructor.
Defined.

(** X18. From the file to the answer of [main]: for a configuration file
    with a header free of separator lines, a separator line and rules, the
    records [main] finds for its address [1.11.40.5] are the objects
    built for the rules that [parseLine] reads, whose range [insert]
    accepts with a non-empty prefix, and whose prefix is the leading bits of
    that address; nothing of the header and no rule that fails to parse is
    among them. *)
Theorem mainMatches_reports_exactly readFile header separatorLine rules record :
  readFile "ita-finalv12.cfg"
  = Some (joinLines (header ++ separatorLine :: rules)) ->
  Forall (fun line => noLineFeed line = true)
    (header ++ separatorLine :: rules) ->
  Forall (fun line => isSeparatorLine line = false) header ->
  isSeparatorLine separatorLine = true ->
  record ∈ mainMatches readFile
  <-> exists line entry prefix,
        line ∈ rules /\ parseLine line = Some entry
        /\ record = snd (entryOf entry)
        /\ prefixOf (ipRange entry) = Some prefix /\ prefix <> []
        /\ covers prefix "00000001000010110010100000000101".
Proof.
  intros Hread Hlines Hheader Hsep. unfold mainMatches.
  rewrite (readCfgFile_data _ _ _ Hread).
  rewrite split_joinLines; [|by destruct header|done].
  rewrite (findIndex_app _ _ _ _ Hheader Hsep), drop_after.
  rewrite findAllIpsInTrie_run.
  assert (ipToBinary "1.11.40.5" = Ok "00000001000010110010100000000101")
    as -> by reflexivity.
  rewrite elem_of_levels. split.
  - intros (cidr & prefix & Hin & Hp & Hne & Hcov).
    apply list_elem_of_fmap in Hin as (entry & Heq & Hin).
    apply list_elem_of_omap in Hin as (line & Hline & Hparse).
    exists line, entry, prefix. rewrite <- Heq. cbn [snd].
    assert (cidr = ipRange entry) as <- by (by injection Heq).
    done.
  - intros (line & entry & prefix & Hline & Hparse & -> & Hp & Hne & Hcov).
    exists (ipRange entry), prefix. split; [|done].
    apply list_elem_of_fmap. exists entry. split; [done|].
    apply list_elem_of_omap. eauto.
Qed.

Lemma mainMatches_reports_exactly_witness :
  mainMatches
    (fun _ =>
       Some (joinLines
               (["[rules]"] ++ separator
                :: [formatLine (mkCidrRecord "1.11.40.0/21" "LG" "18313" "KR" "")])))
  = [mkCidrRecord "1.11.40.0/21" "LG" "18313" "KR" "none"]
  /\ (mkCidrRecord "1.11.40.0/21" "LG" "18313" "KR" "none"
        ∈ mainMatches
            (fun _ =>
               Some (joinLines
                       (["[rules]"] ++ separator
                        :: [formatLine
                              (mkCidrRecord "1.11.40.0/21" "LG" "18313" "KR" "")])))
      <-> exists line entry prefix,
            line ∈ [formatLine (mkCidrRecord "1.11.40.0/21" "LG" "18313" "KR" "")]
            /\ parseLine line = Some entry
            /\ mkCidrRecord "1.11.40.0/21" "LG" "18313" "KR" "none"
               = snd (entryOf entry)
            /\ prefixOf (ipRange entry) = Some prefix /\ prefix <> []
            /\ covers prefix "00000001000010110010100000000101").
Proof.
  split; [vm_compute; reflexivity|].
  apply (mainMatches_reports_exactly _ ["[rules]"] separator
           [formatLine (mkCidrRecord "1.11.40.0/21" "LG" "18313" "KR" "")]).
  - reflexivity.
  - repeat constructor.
  - repeat constructor.
  - reflexivity.
Defined.


(** ** Malformed input that the codec lets through *)

(** C7, at the failing input.  The query address [5e-1.0.0.0] is malformed,
    its first field being one half and no integer, yet [ipToBinary] returns
    for it, and [searchAll] on a trie that holds [10.0.0.0/8] returns the
    empty array as it does for an address in no range: the walk stops at
    the point of the encoded address. *)
Theorem fractional_query_reported_empty {Data} (record : Data) :
  isInteger (JS.Number "5e-1") = false
  /\ ipToBinary "5e-1.0.0.0" = Ok "000000.1000000000000000000000000"
  /\ searchAll "5e-1.0.0.0" (build [("10.0.0.0/8", record)])
     = (Ok [], build [("10.0.0.0/8", record)]).
Proof. repeat split; vm_compute; reflexivity. Qed.

(** C8, at the failing input.  The CIDR string [1.2.3.4/8.5] is malformed,
    its prefix length being no integer, yet [insert] returns normally,
    creates the nodes of a 9-bit path and stores the record there: a later
    [searchAll] on [1.0.0.0], which found nothing before, finds it. *)
Theorem fractional_prefix_inserted {Data} (record : Data) :
  isInteger (JS.Number "8.5") = false
  /\ prefixOf "1.2.3.4/8.5" = Some (bitPath "000000010" 9)
  /\ fst (insert "1.2.3.4/8.5" record newTrie) = Ok tt
  /\ fst (searchAll "1.0.0.0" newTrie) = Ok ([] : list Data)
  /\ fst (searchAll "1.0.0.0" (snd (insert "1.2.3.4/8.5" record newTrie)))
     = Ok [record].
Proof. repeat split; vm_compute; reflexivity. Qed.

(** ** The frame of an insertion *)

Lemma ceiling_integer m e :
  isInteger (JS.Finite m e) = true -> JS.ceiling m e = integerValue m e.
Proof.
  unfold JS.ceiling, integerValue. cbn [isInteger].
  destruct (Z.leb_spec 0 e) as [He|He]; [done|]. cbn [orb].
  intros Hmod%Z.eqb_eq.
  assert (0 < 2 ^ (- e)) as Hd by (apply Z.pow_pos_nonneg; lia).
  pose proof (Z.div_mod m (2 ^ (- e))) as Hdm. rewrite Hmod in Hdm.
  assert (- m = (- (m / 2 ^ (- e))) * 2 ^ (- e)) as -> by lia.
  rewrite Z.div_mul by lia. lia.
Qed.

Lemma loopCount_denotesNat prefixLength p :
  denotesNat prefixLength p -> loopCount prefixLength = p.
Proof.
  destruct prefixLength as [| |m e]; try done. intros [Hint Hvalue].
  cbn [loopCount]. rewrite (ceiling_integer _ _ Hint), Hvalue. lia.
Qed.

Lemma keysFrom_String c s i n :
  keysFrom (String c s) (S i) n = keysFrom s i n.
Proof.
  unfold keysFrom. rewrite <- seq_shift, map_map. by apply map_ext.
Qed.

Lemma join_bitPath n : forall s,
  (n <= String.length s)%nat -> JS.join (bitPath s n) = substring 0 n s.
Proof.
  induction n as [|n IH]; intros [|c s] Hn; simpl in Hn; try done; try lia.
  unfold bitPath. rewrite keysFrom_S, keysFrom_String.
  cbn [JS.join foldr]. fold (JS.join (keysFrom s 0 n)).
  fold (bitPath s n). rewrite IH by lia. reflexivity.
Qed.

(** C10. A successful [insert] of a CIDR whose prefix length is the integer
    [p] works along the path of the first [p] bits of the encoded address
    and touches nothing else: every node off that path is the node it was
    (same children, same records, and absent if it was absent), every node
    on the path exists afterwards, the records of every node other than the
    last one of the path are unchanged, and the last one has the new record
    appended to what it held. *)
Theorem insert_frame {Data} cidr (record : Data) t t' ip prefixLength bits p :
  insert cidr record t = (Ok tt, t') ->
  parseCIDR cidr = Ok (ip, prefixLength) -> ipToBinary ip = Ok bits ->
  denotesNat prefixLength p ->
  let keys := bitPath bits p in
  List.length keys = p
  /\ JS.join keys = substring 0 p bits
  /\ (forall path, ~ path `prefix_of` keys ->
                   nodeAt path (root t') = nodeAt path (root t))
  /\ (forall path, path `prefix_of` keys -> is_Some (nodeAt path (root t')))
  /\ (forall path, path <> keys ->
                   recordsAt path (root t') = recordsAt path (root t))
  /\ recordsAt keys (root t') = recordsAt keys (root t) ++ [record].
Proof.
  intros Hinsert Hparse Hbits Hp keys.
  pose proof (loopCount_denotesNat _ _ Hp) as Hcount.
  assert (p <= 32)%nat as Hle.
  { apply parseCIDR_Ok in Hparse as (s & _ & -> & Hrej). rewrite <- Hcount.
    apply loopCount_le_32. unfold prefixLengthRejected in Hrej.
    cbv zeta in Hrej. by apply orb_false_elim in Hrej as [_ ?]. }
  assert (t' = mkTrie (insertPath keys record (root t))) as ->.
  { rewrite insert_run, Hparse, Hbits, insertLoop_insertPath, Hcount in Hinsert.
    by injection Hinsert as <-. }
  cbn [root]. split; [apply bitPath_length|]. split.
  { apply join_bitPath. pose proof (ipToBinary_length _ _ Hbits). lia. }
  split; [|split; [|split]].
  - intros path Hoff. by apply nodeAt_insertPath_off.
  - intros path Hon. by apply nodeAt_insertPath_on.
  - intros path Hne. rewrite recordsAt_insertPath.
    rewrite decide_False by done. by rewrite app_nil_r.
  - rewrite recordsAt_insertPath. by rewrite decide_True.
Qed.

Lemma insert_frame_witness :
  insert "10.128.0.0/9" "upper" (build [("10.0.0.0/8", "ten")])
  = (Ok tt, build [("10.0.0.0/8", "ten"); ("10.128.0.0/9", "upper")])
  /\ denotesNat (JS.Number "9") 9
  /\ JS.join (bitPath "00001010100000000000000000000000" 9) = "000010101"
  /\ recordsAt (bitPath "00001010100000000000000000000000" 9)
       (root (build [("10.0.0.0/8", "ten"); ("10.128.0.0/9", "upper")]))
     = recordsAt (bitPath "00001010100000000000000000000000" 9)
         (root (build [("10.0.0.0/8", "ten")])) ++ ["upper"]
  /\ recordsAt (bitPath "00001010100000000000000000000000" 8)
       (root (build [("10.0.0.0/8", "ten"); ("10.128.0.0/9", "upper")]))
     = recordsAt (bitPath "00001010100000000000000000000000" 8)
         (root (build [("10.0.0.0/8", "ten")])).
Proof.
  assert (denotesNat (JS.Number "9") 9) as Hp by (split; reflexivity).
  destruct (insert_frame "10.128.0.0/9" "upper"
              (build [("10.0.0.0/8", "ten")])
              (build [("10.0.0.0/8", "ten"); ("10.128.0.0/9", "upper")])
              "10.128.0.0" (JS.Number "9")
              "00001010100000000000000000000000" 9)
    as (_ & Hjoin & _ & _ & Hother & Hrec);
    [vm_compute; reflexivity | reflexivity | reflexivity | exact Hp |].
  split; [vm_compute; reflexivity|]. split; [exact Hp|].
  split; [exact Hjoin|]. split; [exact Hrec|].
  apply Hother. vm_compute. discriminate.
Defined.
